(** * The recursive research loop of ai-browser-contextual-search

    A shallow embedding of the research engine of the repository:
    - class [Coordinator], required by looper.js as ['./coordinator']
      (the second file of src/unnamed/part_002),
    - class [Looper] (src/backend/api/engine/looper.js),
    - class [WebSearcher] (src/backend/api/engine/tools/web_searcher.js),
    - class [ContextGraph], required by looper.js as ['../context_engine']
      (the second file of src/backend/api/engine/studio/media_processor.js),
    followed by the properties the specification states about them.

    Conventions.
    - A JavaScript string is its sequence of UTF-16 code units, each an [N]
      below 65536.  Source literals are written [L "..."].
    - Numbers that the code only compares ([confidence], [satisfaction]) are
      rationals; every comparison made by the code is between decimal
      literals whose order as doubles is their order as rationals.
    - An awaited call settles: it returns a value or throws ([Result]).
      [setTimeout] delays and [console] output are not modelled.
    - Free identifiers, method look-ups and property reads follow the
      language: an unbound identifier throws a ReferenceError, calling a
      property that is not a function throws a TypeError. *)

From Stdlib Require Import List String Ascii Bool Arith NArith ZArith QArith Lia.
Import ListNotations.

Local Open Scope N_scope.

(* ------------------------------------------------------------------ *)
(** ** JavaScript strings *)

Definition jsstring := list N.

(** A source literal (ASCII) as a sequence of code units. *)
Definition L (s : string) : jsstring :=
  map N_of_ascii (list_ascii_of_string s).

Fixpoint str_eqb (a b : jsstring) : bool :=
  match a, b with
  | [], [] => true
  | x :: a', y :: b' => (x =? y) && str_eqb a' b'
  | _, _ => false
  end.

Fixpoint startsWith (needle s : jsstring) : bool :=
  match needle, s with
  | [], _ => true
  | x :: needle', y :: s' => (x =? y) && startsWith needle' s'
  | _ :: _, [] => false
  end.

(** [s.includes(needle)] *)
Fixpoint includes (s needle : jsstring) : bool :=
  startsWith needle s ||
  match s with
  | [] => false
  | _ :: s' => includes s' needle
  end.

(** [s.toLowerCase()].  Only the mapping of [A]-[Z] is written out.  The
    two other characters whose lower case contains an ASCII letter are
    U+212A (to [k]) and U+0130 (to [i] followed by U+0307); no keyword
    tested by [classifyIntent] contains [k], ends in [i] or contains
    U+0307, so every [includes] test of the classifier has the value it
    has in the source. *)
Definition lower_unit (c : N) : N :=
  if (65 <=? c) && (c <=? 90) then c + 32 else c.

Definition toLowerCase (s : jsstring) : jsstring := map lower_unit s.

(** Decimal digits of a non-negative integer, as in a template literal. *)
Fixpoint digits_of_uint (d : Decimal.uint) : jsstring :=
  match d with
  | Decimal.Nil => []
  | Decimal.D0 d' => 48 :: digits_of_uint d'
  | Decimal.D1 d' => 49 :: digits_of_uint d'
  | Decimal.D2 d' => 50 :: digits_of_uint d'
  | Decimal.D3 d' => 51 :: digits_of_uint d'
  | Decimal.D4 d' => 52 :: digits_of_uint d'
  | Decimal.D5 d' => 53 :: digits_of_uint d'
  | Decimal.D6 d' => 54 :: digits_of_uint d'
  | Decimal.D7 d' => 55 :: digits_of_uint d'
  | Decimal.D8 d' => 56 :: digits_of_uint d'
  | Decimal.D9 d' => 57 :: digits_of_uint d'
  end.

Definition decimal (n : N) : jsstring := digits_of_uint (N.to_uint n).

(* ------------------------------------------------------------------ *)
(** ** Values, errors and completions *)

#[warnings="-register-all"]
Inductive Value : Type :=
| VUndefined
| VNull
| VBool (b : bool)
| VNum (q : Q)
| VStr (s : jsstring)
| VArr (items : list Value)
| VObj (fields : list (string * Value)).

(** The fields of an object literal, later fields overriding earlier ones. *)
Definition Fields := list (string * Value).

Fixpoint lookup (k : string) (fs : Fields) : option Value :=
  match fs with
  | [] => None
  | (k', v) :: fs' =>
      match lookup k fs' with
      | Some later => Some later
      | None => if String.eqb k k' then Some v else None
      end
  end.

(** [o.k] on an object with fields [fs]. *)
Definition field (k : string) (fs : Fields) : Value :=
  match lookup k fs with
  | Some v => v
  | None => VUndefined
  end.

Record JSError := mkError { err_name : string; err_message : string }.

Definition TypeError (msg : string) : JSError := mkError "TypeError" msg.
Definition ReferenceError (msg : string) : JSError := mkError "ReferenceError" msg.
Definition URIError (msg : string) : JSError := mkError "URIError" msg.

(** The completion of a call: a value, or a thrown error. *)
Inductive Result (A : Type) : Type :=
| Return (a : A)
| Throw (e : JSError).
Arguments Return {A} a.
Arguments Throw {A} e.

Definition rbind {A B} (r : Result A) (k : A -> Result B) : Result B :=
  match r with
  | Return a => k a
  | Throw e => Throw e
  end.

(** ToBoolean. *)
Definition truthy (v : Value) : bool :=
  match v with
  | VUndefined | VNull => false
  | VBool b => b
  | VNum q => negb (Qeq_bool q 0)
  | VStr s => match s with [] => false | _ => true end
  | VArr _ | VObj _ => true
  end.

(** [v.k]: reading a property of [undefined] or [null] throws; a primitive
    or an array has none of the property names read by the engine. *)
Definition get_prop (v : Value) (k : string) : Result Value :=
  match v with
  | VUndefined => Throw (TypeError "Cannot read properties of undefined")
  | VNull => Throw (TypeError "Cannot read properties of null")
  | VObj fs => Return (field k fs)
  | _ => Return VUndefined
  end.

(** [v?.k] *)
Definition get_prop_opt (v : Value) (k : string) : Value :=
  match v with
  | VObj fs => field k fs
  | _ => VUndefined
  end.

(** [a || b] *)
Definition js_or (a b : Value) : Value := if truthy a then a else b.

(** [a > b] on numbers. *)
Definition Qgt_bool (a b : Q) : bool := negb (Qle_bool a b).

(** [v === 'literal'] *)
Definition strict_eq_str (v : Value) (s : jsstring) : bool :=
  match v with
  | VStr s' => str_eqb s' s
  | _ => false
  end.

(* ------------------------------------------------------------------ *)
(** ** [encodeURIComponent] (ECMAScript [Encode] with the unreserved set) *)

Definition is_low_surrogate (c : N) : bool := (56320 <=? c) && (c <=? 57343).
Definition is_surrogate (c : N) : bool := (55296 <=? c) && (c <=? 57343).

(** [A-Z a-z 0-9 - _ . ! ~ * ' ( )] *)
Definition uri_unreserved (c : N) : bool :=
  ((65 <=? c) && (c <=? 90)) || ((97 <=? c) && (c <=? 122)) ||
  ((48 <=? c) && (c <=? 57)) ||
  existsb (N.eqb c) [45; 95; 46; 33; 126; 42; 39; 40; 41].

Definition hex_digit (n : N) : N := if n <? 10 then 48 + n else 55 + n.

(** ["%XX"] for one octet. *)
Definition percent (octet : N) : jsstring :=
  [37; hex_digit (octet / 16); hex_digit (octet mod 16)].

Definition utf8_octets (cp : N) : list N :=
  if cp <? 128 then [cp]
  else if cp <? 2048 then [192 + cp / 64; 128 + cp mod 64]
  else if cp <? 65536 then
    [224 + cp / 4096; 128 + (cp / 64) mod 64; 128 + cp mod 64]
  else
    [240 + cp / 262144; 128 + (cp / 4096) mod 64;
     128 + (cp / 64) mod 64; 128 + cp mod 64].

Definition percent_encode (cp : N) : jsstring :=
  flat_map percent (utf8_octets cp).

Definition code_point (hi lo : N) : N :=
  (hi - 55296) * 1024 + (lo - 56320) + 65536.

Fixpoint encodeURIComponent (s : jsstring) : Result jsstring :=
  match s with
  | [] => Return []
  | c :: rest =>
      if uri_unreserved c then
        rbind (encodeURIComponent rest) (fun r => Return (c :: r))
      else if negb (is_surrogate c) then
        rbind (encodeURIComponent rest) (fun r => Return (percent_encode c ++ r))
      else if is_low_surrogate c then Throw (URIError "URI malformed")
      else
        match rest with
        | [] => Throw (URIError "URI malformed")
        | c2 :: rest' =>
            if is_low_surrogate c2 then
              rbind (encodeURIComponent rest')
                    (fun r => Return (percent_encode (code_point c c2) ++ r))
            else Throw (URIError "URI malformed")
        end
  end.

(** [s.isWellFormed()]: no unpaired surrogate. *)
Fixpoint isWellFormed (s : jsstring) : bool :=
  match s with
  | [] => true
  | c :: rest =>
      if negb (is_surrogate c) then isWellFormed rest
      else if is_low_surrogate c then false
      else
        match rest with
        | [] => false
        | c2 :: rest' => is_low_surrogate c2 && isWellFormed rest'
        end
  end.

(* ------------------------------------------------------------------ *)
(** ** The data of the engine *)

(** A search result, [{ title, url, snippet }]. *)
Record Reference := mkReference {
  title : jsstring;
  url : jsstring;
  snippet : jsstring
}.

(** The classifier's verdict; [privacy_mode] and [breadth] are present
    for some categories only. *)
Record Intent := mkIntent {
  type : jsstring;
  specialist : jsstring;
  confidence : Q;
  privacy_mode : option jsstring;
  breadth : option jsstring
}.

Record Step := mkStep {
  tool : jsstring;
  params : Fields
}.

Record Plan := mkPlan {
  id : jsstring;
  intent : Intent;
  steps : list Step
}.

(** An entry of the per-iteration result buffer:
    [{ type: 'urls', data }] or [{ type: 'content', source, data }]. *)
Inductive Intel : Type :=
| Urls (data : list Reference)
| Content (source : Reference) (data : jsstring).

Record Audit := mkAudit {
  satisfaction : Q;
  missing_info : option jsstring
}.

Record Alternative := mkAlternative {
  alt_label : jsstring;
  alt_desc : jsstring;
  alt_source : jsstring
}.

Record SynthesisResult := mkSynthesis {
  answer : jsstring;
  sources : list Reference;
  alternatives : list Alternative;
  synthesis_confidence : Q
}.

(* ------------------------------------------------------------------ *)
(** ** Effects

    [Out] is the state of everything outside the engine (network, clock),
    [Ctx] the state of the session's context object.  The [trace] is ghost
    state: it records the provider calls and the evaluator calls the
    engine makes, and nothing reads it. *)

Inductive Event : Type :=
| CallSearch (query : Value) (options : Fields)
| CallRead (reference : Reference)
| CallEvaluate.

Section Effects.
Variables Out Ctx : Type.

Record World := mkWorld {
  real : Out;
  store : Ctx;
  trace : list Event
}.

(** An awaited computation of the engine. *)
Definition Task (A : Type) := World -> World * Result A.

Definition ret {A} (a : A) : Task A := fun w => (w, Return a).

Definition throw {A} (e : JSError) : Task A := fun w => (w, Throw e).

Definition bind {A B} (c : Task A) (k : A -> Task B) : Task B :=
  fun w =>
    match c w with
    | (w', Return a) => k a w'
    | (w', Throw e) => (w', Throw e)
    end.

(** Ghost: append an event to the trace. *)
Definition record (ev : Event) : Task unit :=
  fun w => (mkWorld (real w) (store w) (trace w ++ [ev]), Return tt).

(** A call into a capability provider: it sees the outside world only. *)
Definition Provider (A : Type) := Out -> Out * Result A.

Definition call_provider {A} (p : Provider A) : Task A :=
  fun w =>
    let '(s', r) := p (real w) in
    (mkWorld s' (store w) (trace w), r).

(** A method of the context object: it sees the object and the world. *)
Definition Method (A : Type) := Ctx -> Out -> Ctx * Out * Result A.

(** [receiver.name(...)]: a TypeError when the receiver has no such
    method. *)
Definition call_method {A} (name : string) (m : option (Method A)) : Task A :=
  fun w =>
    match m with
    | None => (w, Throw (TypeError (name ++ " is not a function")))
    | Some f =>
        let '(c', s', r) := f (store w) (real w) in
        (mkWorld s' c' (trace w), r)
    end.

(** [receiver.name(...)] for a static method that only sees the world. *)
Definition call_static {A} (name : string) (m : option (Provider A)) : Task A :=
  fun w =>
    match m with
    | None => (w, Throw (TypeError (name ++ " is not a function")))
    | Some f => call_provider f w
    end.

Definition count_evaluate (t : list Event) : nat :=
  List.length
    (filter (fun ev => match ev with CallEvaluate => true | _ => false end) t).

(** The evaluator calls recorded so far. *)
Definition evals (w : World) : nat := count_evaluate (trace w).

(** The receiver has the method and the method never throws. *)
Definition method_returns {A} (m : option (Method A)) : Prop :=
  exists f, m = Some f /\
            forall c s, exists c' s' a, f c s = (c', s', Return a).

Definition static_returns {A} (m : option (Provider A)) : Prop :=
  exists f, m = Some f /\ forall s, exists s' a, f s = (s', Return a).
End Effects.

Arguments mkWorld {Out Ctx} real store trace.
Arguments real {Out Ctx} w.
Arguments store {Out Ctx} w.
Arguments trace {Out Ctx} w.
Arguments ret {Out Ctx A} a w.
Arguments throw {Out Ctx A} e w.
Arguments bind {Out Ctx A B} c k w.
Arguments record {Out Ctx} ev w.
Arguments call_provider {Out Ctx A} p w.
Arguments call_method {Out Ctx A} name m w.
Arguments call_static {Out Ctx A} name m w.
Arguments evals {Out Ctx} w.
Arguments method_returns {Out Ctx A} m.
Arguments static_returns {Out A} m.

Declare Scope task_scope.
Delimit Scope task_scope with task.
Notation "x <- c ;; k" := (bind c (fun x => k))
  (at level 61, c at next level, right associativity) : task_scope.
Notation "c ;;; k" := (bind c (fun _ => k))
  (at level 61, right associativity) : task_scope.

Local Open Scope task_scope.

(* ------------------------------------------------------------------ *)
(** ** [class Coordinator] (coordinator.js) *)

Module Coordinator.

(** The static methods the class body declares. *)
Definition static_methods : list string :=
  ["plan"; "classifyIntent"; "generateSteps"]%string.

Definition declares (name : string) : bool :=
  existsb (String.eqb name) static_methods.

(** [static generateSteps(intent, query)]: a [switch] on [intent.type]. *)
Definition generateSteps (intent : Intent) (query : jsstring) : list Step :=
  if str_eqb (type intent) (L "MEDIA_COMPILATION") then
    [ mkStep (L "scout_videos") [("query", VStr query)]%string;
      mkStep (L "analyze_scenes")
             [("filters", VArr [VStr (L "action"); VStr (L "dialogue")])]%string;
      mkStep (L "compile_video")
             [("format", VStr (L "mp4")); ("resolution", VStr (L "1080p"))]%string ]
  else if str_eqb (type intent) (L "OFFLINE_ANALYSIS") then
    [ mkStep (L "local_inference")
             [("model", VStr (L "llama-3"));
              ("system_prompt", VStr (L "expert_patent_attorney"))]%string ]
  else if str_eqb (type intent) (L "ADULT_CONTENT") then
    [ mkStep (L "web_search")
             [("depth", VStr (L "deep")); ("safe_search", VStr (L "off"))]%string;
      mkStep (L "media_processor") [("filter", VStr (L "none"))]%string ]
  else
    [ mkStep (L "web_search") [("depth", VStr (L "recursive"))]%string ].

Definition MEDIA_COMPILATION : Intent :=
  mkIntent (L "MEDIA_COMPILATION") (L "StudioDirector") 0.9 None None.

Definition OFFLINE_ANALYSIS : Intent :=
  mkIntent (L "OFFLINE_ANALYSIS") (L "LocalAnalyst") 0.95 None None.

Definition DEEP_RESEARCH : Intent :=
  mkIntent (L "DEEP_RESEARCH") (L "RecursiveAgent") 0.85 None (Some (L "massive")).

Definition ADULT_CONTENT : Intent :=
  mkIntent (L "ADULT_CONTENT") (L "RecursiveAgent") 0.99
           (Some (L "maximum")) (Some (L "massive")).

Definition GENERAL_QUERY : Intent :=
  mkIntent (L "GENERAL_QUERY") (L "QuickSearch") 0.5 None None.

Section Static.
Variables Out Ctx : Type.
(** [Date.now()], read off the outside world. *)
Variable date_now : Out -> N.

(** [static async classifyIntent(query)] *)
Definition classifyIntent (query : jsstring) : Task Out Ctx Intent :=
  let q := toLowerCase query in
  if includes q (L "compile") || includes q (L "scene") ||
     includes q (L "video") || includes q (L "movie")
  then ret MEDIA_COMPILATION
  else if includes q (L "patent") || includes q (L "offline") ||
          includes q (L "local") || includes q (L "private")
  then ret OFFLINE_ANALYSIS
  else if includes q (L "compare") || includes q (L "research") ||
          includes q (L "find") || includes q (L "why")
  then ret DEEP_RESEARCH
  else if includes q (L "porn") || includes q (L "xxx") ||
          includes q (L "adult") || includes q (L "nsfw") ||
          includes q (L "sex")
  then ret ADULT_CONTENT
  else ret GENERAL_QUERY.

(** [static async plan(query, context = {})] *)
Definition plan (query : jsstring) : Task Out Ctx Plan :=
  intent <- classifyIntent query ;;
  fun w =>
    ret (mkPlan (L "plan-" ++ decimal (date_now (real w)))
                intent
                (generateSteps intent query)) w.

(** [Coordinator.replan]: the class declares no such member, so the
    property read yields [undefined]. *)
Definition replan : option (jsstring -> option jsstring -> Provider Out Plan) :=
  None.
End Static.

Arguments classifyIntent {Out Ctx} query w.
Arguments plan {Out Ctx} date_now query w.
Arguments replan {Out}.
End Coordinator.

(* ------------------------------------------------------------------ *)
(** ** [class WebSearcher] (tools/web_searcher.js) *)

Module WebSearcher.

(** [async search(query, options = {})]: six template objects; each
    [url] calls [encodeURIComponent(query)], in source order. *)
Definition search (query : jsstring) (options : Fields) : Result (list Reference) :=
  rbind (encodeURIComponent query) (fun e1 =>
  rbind (encodeURIComponent query) (fun e2 =>
  rbind (encodeURIComponent query) (fun e3 =>
  rbind (encodeURIComponent query) (fun e4 =>
  rbind (encodeURIComponent query) (fun e5 =>
  rbind (encodeURIComponent query) (fun e6 =>
  Return
    [ mkReference
        (L "Unrestricted Results for " ++ query)
        (L "https://example.com/search?q=" ++ e1)
        (L "Raw, unfiltered results for " ++ query ++
         L ". Accessing deep web indices...");
      mkReference
        (L "Community Discussion: " ++ query)
        (L "https://forum.adult-focus.net/t/" ++ e2)
        (L "User discussions and uncensored content regarding " ++ query ++
         L "...");
      mkReference
        (L "Video Archives: " ++ query)
        (L "https://tube-site.com/v/" ++ e3)
        (L "High-resolution video content found for " ++ query ++
         L ". Duration: 12:05.");
      mkReference
        (L "Contradicting View: Why " ++ query ++ L " is misunderstood")
        (L "https://contrarian-blog.com/posts/" ++ e4)
        (L "Everyone thinks X, but actually Y. Here is the alternative perspective...");
      mkReference
        (L "Technical Deep Dive: The physics of " ++ query)
        (L "https://science.org/abstract/" ++ e5)
        (L "Mathematical proof suggesting the standard model of " ++ query ++
         L " is incomplete.");
      mkReference
        (L "Legacy/Historical Data for " ++ query)
        (L "https://archive.org/wayback/" ++ e6)
        (L "In 1999, the consensus on " ++ query ++
         L " was vastly different...") ])))))).

End WebSearcher.

(* ------------------------------------------------------------------ *)
(** ** [class ContextGraph] (context_engine.js) *)

Module ContextGraph.

Record Node := mkNode {
  node_id : jsstring;
  label : jsstring;
  node_type : jsstring
}.

(** [this.sessionGraph] *)
Record SessionGraph := mkGraph {
  nodes : list Node;
  edges : list Value;
  lastSnapshot : Value
}.

(** [constructor()] *)
Definition constructor : SessionGraph := mkGraph [] [] VNull.

(** [extractClaims(text)] *)
Definition extractClaims (text : jsstring) : list jsstring := [].

(** [addNode(label, type)]; [fresh] is the identifier the source builds
    from [Date.now()] and [Math.random()]. *)
Definition addNode (fresh : jsstring) (lbl ty : jsstring) (g : SessionGraph)
  : SessionGraph :=
  if existsb (fun n => str_eqb (label n) lbl) (nodes g) then g
  else mkGraph (nodes g ++ [mkNode fresh lbl ty]) (edges g) (lastSnapshot g).

(** [getGraph()] *)
Definition getGraph (g : SessionGraph) : SessionGraph := g.

(** Every member the class body declares ([processSnapshot] and
    [extractEntities] feed [addNode] from a snapshot's text). *)
Definition members : list string :=
  ["constructor"; "processSnapshot"; "extractEntities"; "extractClaims";
   "addNode"; "getGraph"]%string.

Definition declares (name : string) : bool :=
  existsb (String.eqb name) members.

End ContextGraph.

(* ------------------------------------------------------------------ *)
(** ** [class Looper] (looper.js) *)

Module Looper.

(** The identifiers bound inside [executeSteps] (parameters, [const] and
    loop variables, the [catch] parameter) and at the top level of
    looper.js (its [require]s, its class, the module wrapper). *)
Definition executeSteps_bindings : list string :=
  ["steps"; "context"; "results"; "step"; "searchOptions"; "urls";
   "deepDives"; "url"; "content"; "err"]%string.

Definition module_bindings : list string :=
  ["Coordinator"; "WebSearcher"; "ContentScraper"; "ContextGraph"; "Looper";
   "exports"; "require"; "module"; "__filename"; "__dirname"]%string.

(** What the global object binds, for the identifiers no enclosing
    scope of looper.js binds. *)
Definition Scope := string -> option Value.

(** The global scope the engine runs in: the platform defines neither
    [plan] nor [query], and no file of the repository assigns a global. *)
Definition global_scope : Scope := fun _ => None.

(** Whether no scope of looper.js enclosing the body of [executeSteps]
    binds [x]. *)
Definition free (x : string) : bool :=
  negb (existsb (String.eqb x) (executeSteps_bindings ++ module_bindings)).

(** Reading a free identifier. *)
Definition resolve (G : Scope) (x : string) : Result Value :=
  match G x with
  | Some v => Return v
  | None => Throw (ReferenceError (x ++ " is not defined"))
  end.

(** What [start] needs of the class it imports as [ContextGraph]:
    the fresh object and, for each method [start], [evaluateProgress]
    and [synthesize] call on it, its body when the class declares it. *)
Record ContextClass (Out Ctx : Type) := mkContextClass {
  cx_new : Ctx;
  logInteraction : option (jsstring -> Plan -> Method Out Ctx unit);
  ingest : option (list Intel -> Method Out Ctx unit);
  getTotalWordCount : option (Method Out Ctx Z);
  getSourceCount : option (Method Out Ctx N);
  getSources : option (Method Out Ctx (list Reference))
}.
Arguments cx_new {Out Ctx} c.
Arguments logInteraction {Out Ctx} c.
Arguments ingest {Out Ctx} c.
Arguments getTotalWordCount {Out Ctx} c.
Arguments getSourceCount {Out Ctx} c.
Arguments getSources {Out Ctx} c.

(** [this.searcher] and [this.scraper]. *)
Record Instance (Out : Type) := mkInstance {
  searcher_search : Value -> Fields -> Provider Out (list Reference);
  scraper_read : Reference -> Provider Out jsstring
}.
Arguments searcher_search {Out} i.
Arguments scraper_read {Out} i.

Inductive LoopStep : Type :=
| Break
| Continue (plan : Plan).

Section Methods.
Variables Out Ctx : Type.
Variable date_now : Out -> N.
Variable G : Scope.
(** The classes looper.js imports. *)
Variable Context : ContextClass Out Ctx.
Variable Coordinator_replan :
  option (jsstring -> option jsstring -> Provider Out Plan).
Variable this : Instance Out.

(** [{ ...step.params, breadth: plan.intent?.breadth || 'standard' }] *)
Definition searchOptions_expr (step : Step) : Result Fields :=
  rbind (resolve G "plan") (fun plan =>
  rbind (get_prop plan "intent") (fun intent =>
  Return (params step ++
          [("breadth"%string,
            js_or (get_prop_opt intent "breadth") (VStr (L "standard")))]))).

(** [step.params.query || query] *)
Definition query_expr (step : Step) : Result Value :=
  let q := field "query" (params step) in
  if truthy q then Return q else resolve G "query".

Definition with_real (s : Out) (w : World Out Ctx) : World Out Ctx :=
  mkWorld s (store w) (trace w).

Definition logged (ev : Event) (w : World Out Ctx) : World Out Ctx :=
  mkWorld (real w) (store w) (trace w ++ [ev]).

(** [for (const url of deepDives) { ... results.push(...) }]: the
    buffer as it stands when the loop ends or a read throws.  Each call of
    [this.scraper.read] is recorded in the ghost trace. *)
Fixpoint deepDive (deepDives : list Reference) (results : list Intel)
         (w : World Out Ctx) : World Out Ctx * list Intel * Result unit :=
  match deepDives with
  | [] => (w, results, Return tt)
  | url :: rest =>
      let w1 := logged (CallRead url) w in
      match scraper_read this url (real w1) with
      | (s', Return content) =>
          deepDive rest (results ++ [Content url content]) (with_real s' w1)
      | (s', Throw e) => (with_real s' w1, results, Throw e)
      end
  end.

(** The body of the [try] block for one step; the call of
    [this.searcher.search] is recorded in the ghost trace. *)
Definition step_body (step : Step) (results : list Intel) (w : World Out Ctx)
  : World Out Ctx * list Intel * Result unit :=
  if str_eqb (tool step) (L "web_search") then
    match searchOptions_expr step with
    | Throw e => (w, results, Throw e)
    | Return searchOptions =>
        match query_expr step with
        | Throw e => (w, results, Throw e)
        | Return q =>
            let w1 := logged (CallSearch q searchOptions) w in
            match searcher_search this q searchOptions (real w1) with
            | (s', Throw e) => (with_real s' w1, results, Throw e)
            | (s', Return urls) =>
                deepDive (firstn 2 urls) (results ++ [Urls urls])
                         (with_real s' w1)
            end
        end
    end
  else (w, results, Return tt).

(** [try { ... } catch (err) { console.error(...) }] *)
Definition try_step (step : Step) (results : list Intel) (w : World Out Ctx)
  : World Out Ctx * list Intel :=
  let '(w', results', _) := step_body step results w in (w', results').

Fixpoint for_steps (steps : list Step) (results : list Intel) (w : World Out Ctx)
  : World Out Ctx * list Intel :=
  match steps with
  | [] => (w, results)
  | step :: rest =>
      let '(w', results') := try_step step results w in
      for_steps rest results' w'
  end.

(** [async executeSteps(steps, context)] *)
Definition executeSteps (steps : list Step) : Task Out Ctx (list Intel) :=
  fun w => let '(w', results) := for_steps steps [] w in (w', Return results).

(** [async evaluateProgress(query, context)]; its entry is recorded in
    the ghost trace. *)
Definition evaluateProgress (query : jsstring) : Task Out Ctx Audit :=
  record CallEvaluate ;;;
  wordCount <- call_method "context.getTotalWordCount"
                           (getTotalWordCount Context) ;;
  if (1000 <? wordCount)%Z then ret (mkAudit 0.9 None)
  else if (500 <? wordCount)%Z
  then ret (mkAudit 0.7 (Some (L "Need more details")))
  else ret (mkAudit 0.3 (Some (L "Search failed to yield content"))).

(** [async synthesize(query, context)] *)
Definition synthesize (query : jsstring) : Task Out Ctx SynthesisResult :=
  count <- call_method "context.getSourceCount" (getSourceCount Context) ;;
  found <- call_method "context.getSources" (getSources Context) ;;
  ret (mkSynthesis
         (L "Based on recursive analysis of " ++ decimal count ++
          L " sources, the primary consensus is coherent. However, divergent timelines and alternative theories were found.")
         (firstn 3 found)
         [ mkAlternative
             (L "Contrarian Viewpoint")
             (L "Some sources argue the opposite effect observed in main studies.")
             (L "https://contrarian-blog.com");
           mkAlternative
             (L "Historical Divergence")
             (L "Pre-2000 data suggests a different trend.")
             (L "https://archive.org") ]
         0.95).

(** [options.depth === 'deep' ? 4 : 2] *)
Definition maxIterations (options : Fields) : nat :=
  if strict_eq_str (field "depth" options) (L "deep") then 4%nat else 2%nat.

(** One pass through the body of the [while] loop. *)
Definition iteration (query : jsstring) (plan : Plan) : Task Out Ctx LoopStep :=
  newIntel <- executeSteps (steps plan) ;;
  call_method "context.ingest"
              (option_map (fun m => m newIntel) (ingest Context)) ;;;
  audit <- evaluateProgress query ;;
  if Qgt_bool (satisfaction audit) 0.85 then ret Break
  else
    plan' <- call_static "Coordinator.replan"
               (option_map (fun m => m query (missing_info audit))
                           Coordinator_replan) ;;
    ret (Continue plan').

(** [while (iterations < maxIterations) { ... }]; [None] when [fuel]
    passes through the loop test do not reach its exit. *)
Fixpoint while_loop (fuel : nat) (query : jsstring) (maxIter iterations : nat)
         (plan : Plan) (w : World Out Ctx) : option (World Out Ctx * Result unit) :=
  match fuel with
  | O => None
  | S fuel' =>
      if (iterations <? maxIter)%nat then
        match iteration query plan w with
        | (w', Return Break) => Some (w', Return tt)
        | (w', Return (Continue plan')) =>
            while_loop fuel' query maxIter (S iterations) plan' w'
        | (w', Throw e) => Some (w', Throw e)
        end
      else Some (w, Return tt)
  end.

(** [async start(query, options = {})] *)
Definition start (fuel : nat) (query : jsstring) (options : Fields) (w : World Out Ctx)
  : option (World Out Ctx * Result SynthesisResult) :=
  let w0 := mkWorld (real w) (cx_new Context) (trace w) in
  match (plan <- Coordinator.plan date_now query ;;
         call_method "context.logInteraction"
                     (option_map (fun m => m (L "PLAN_CREATED") plan)
                                 (logInteraction Context)) ;;;
         ret plan) w0 with
  | (w1, Throw e) => Some (w1, Throw e)
  | (w1, Return plan) =>
      match while_loop fuel query (maxIterations options) 0%nat plan w1 with
      | None => None
      | Some (w2, Throw e) => Some (w2, Throw e)
      | Some (w2, Return _) => Some (synthesize query w2)
      end
  end.
End Methods.

Arguments executeSteps {Out Ctx} G this steps w.
Arguments for_steps {Out Ctx} G this steps results w.
Arguments try_step {Out Ctx} G this step results w.
Arguments step_body {Out Ctx} G this step results w.
Arguments deepDive {Out Ctx} this deepDives results w.
Arguments evaluateProgress {Out Ctx} Context query w.
Arguments synthesize {Out Ctx} Context query w.
Arguments iteration {Out Ctx} G Context Coordinator_replan this query plan w.
Arguments while_loop {Out Ctx} G Context Coordinator_replan this fuel query
          maxIter iterations plan w.
Arguments start {Out Ctx} date_now G Context Coordinator_replan this fuel query
          options w.
Arguments with_real {Out Ctx} s w.
Arguments logged {Out Ctx} ev w.

(** The class looper.js imports from context_engine.js, seen through
    the methods [Looper] calls on it: [ContextGraph] declares none of
    them. *)
Definition ContextGraph_class (Out : Type)
  : ContextClass Out ContextGraph.SessionGraph :=
  mkContextClass Out ContextGraph.SessionGraph
    ContextGraph.constructor None None None None None.

(** [new Looper().start(query, options)] on the imports of the source. *)
Definition start_source {Out : Type} (date_now : Out -> N) (this : Instance Out) :=
  start date_now global_scope (ContextGraph_class Out) Coordinator.replan this.

End Looper.

(* ------------------------------------------------------------------ *)
(** ** The classifier as the specification words it

    Rules in a fixed priority order, the first rule with a matching
    keyword wins, a catch-all category otherwise. *)

Module Spec.

Definition rules : list (list jsstring * Intent) :=
  [ ([L "compile"; L "scene"; L "video"; L "movie"],
     Coordinator.MEDIA_COMPILATION);
    ([L "patent"; L "offline"; L "local"; L "private"],
     Coordinator.OFFLINE_ANALYSIS);
    ([L "compare"; L "research"; L "find"; L "why"],
     Coordinator.DEEP_RESEARCH);
    ([L "porn"; L "xxx"; L "adult"; L "nsfw"; L "sex"],
     Coordinator.ADULT_CONTENT) ].

Definition catch_all : Intent := Coordinator.GENERAL_QUERY.

Fixpoint first_match (rs : list (list jsstring * Intent)) (q : jsstring)
  : option Intent :=
  match rs with
  | [] => None
  | (keywords, category) :: rs' =>
      if existsb (includes q) keywords then Some category
      else first_match rs' q
  end.

Definition classify (query : jsstring) : Intent :=
  match first_match rules (toLowerCase query) with
  | Some category => category
  | None => catch_all
  end.

Definition categories : list Intent := catch_all :: map snd rules.

(** The six url prefixes of the bundled search provider, in order. *)
Definition search_url_prefixes : list jsstring :=
  [ L "https://example.com/search?q=";
    L "https://forum.adult-focus.net/t/";
    L "https://tube-site.com/v/";
    L "https://contrarian-blog.com/posts/";
    L "https://science.org/abstract/";
    L "https://archive.org/wayback/" ].

(** Empty or made of white space only. *)
Definition blank (query : jsstring) : bool :=
  forallb (fun c => existsb (N.eqb c) [32; 9; 10; 11; 12; 13; 160]) query.

End Spec.

(* ------------------------------------------------------------------ *)
(** ** Collaborators used to run the engine on concrete inputs *)

Module Sample.

(** A context object whose whole state is its word count: [ingest] adds
    the lengths of the texts it is handed. *)
Definition words_of (i : Intel) : Z :=
  match i with
  | Urls _ => 0%Z
  | Content _ data => Z.of_nat (List.length data)
  end.

Definition counting_context : Looper.ContextClass unit Z :=
  Looper.mkContextClass unit Z
    0%Z
    (Some (fun _ _ c s => (c, s, Return tt)))
    (Some (fun newIntel c s =>
             (fold_left (fun n i => (n + words_of i)%Z) newIntel c, s, Return tt)))
    (Some (fun c s => (c, s, Return c)))
    (Some (fun c s => (c, s, Return 0)))
    (Some (fun c s => (c, s, Return []))).

Definition world_with (words : Z) : World unit Z := mkWorld tt words [].

(** Scenario D of the specification: two references are found, reading
    the first one fails, reading the second one succeeds. *)
Definition ref1 : Reference :=
  mkReference (L "first") (L "https://a.example/1") (L "one").
Definition ref2 : Reference :=
  mkReference (L "second") (L "https://a.example/2") (L "two").

Definition ContentUnreadable : JSError :=
  mkError "ContentUnreadable" "paywalled".

Definition scenarioD : Looper.Instance unit :=
  Looper.mkInstance unit
    (fun _ _ s => (s, Return [ref1; ref2]))
    (fun r s =>
       if str_eqb (url r) (url ref1) then (s, Throw ContentUnreadable)
       else (s, Return (L "the text of the second page"))).

(** A global object on which [plan] and [query] are defined. *)
Definition globals_with_plan : Looper.Scope :=
  fun x =>
    if String.eqb x "plan" then
      Some (VObj [("intent", VObj [("breadth", VStr (L "massive"))])])%string
    else if String.eqb x "query" then Some (VStr (L "tides"))
    else None.

Definition search_step : Step :=
  mkStep (L "web_search") [("depth", VStr (L "recursive"))]%string.

Definition clock : unit -> N := fun _ => 1700000000000.

Definition start_world : World unit unit := mkWorld tt tt [].

(** A [replan] that asks for the same search again. *)
Definition replan_again
  : option (jsstring -> option jsstring -> Provider unit Plan) :=
  Some (fun _ _ s =>
          (s, Return (mkPlan (L "plan-2") Coordinator.GENERAL_QUERY
                             [search_step]))).

Definition deep : Fields := [("depth", VStr (L "deep"))]%string.

(** A context object that always reports 1200 words. *)
Definition rich_context : Looper.ContextClass unit Z :=
  Looper.mkContextClass unit Z
    1200%Z
    (Some (fun _ _ c s => (c, s, Return tt)))
    (Some (fun _ c s => (c, s, Return tt)))
    (Some (fun c s => (c, s, Return 1200%Z)))
    (Some (fun c s => (c, s, Return 6)))
    (Some (fun c s => (c, s, Return [ref1; ref2; ref1; ref2]))).

End Sample.

(* ------------------------------------------------------------------ *)
(** ** Measures on traces and buffers *)

Module Measure.

(** The provider calls recorded in a trace. *)
Definition count_search (t : list Event) : nat :=
  List.length
    (filter (fun ev => match ev with CallSearch _ _ => true | _ => false end) t).

Definition count_read (t : list Event) : nat :=
  List.length
    (filter (fun ev => match ev with CallRead _ => true | _ => false end) t).

(** The steps [executeSteps] dispatches on. *)
Definition is_web_search (step : Step) : bool :=
  str_eqb (tool step) (L "web_search").

Definition web_search_steps (steps : list Step) : nat :=
  List.length (filter is_web_search steps).

(** A buffer in which every [content] entry was read from one of the
    first two references of the latest [urls] entry before it; [found]
    is that entry's data, if any. *)
Fixpoint sourced_from (found : option (list Reference)) (buffer : list Intel)
  : Prop :=
  match buffer with
  | [] => True
  | Urls data :: later => sourced_from (Some data) later
  | Content source _ :: later =>
      match found with
      | Some data => In source (firstn 2 data)
      | None => False
      end /\ sourced_from found later
  end.

(** The latest [urls] entry of a buffer. *)
Fixpoint latest_urls (found : option (list Reference)) (buffer : list Intel)
  : option (list Reference) :=
  match buffer with
  | [] => found
  | Urls data :: later => latest_urls (Some data) later
  | Content _ _ :: later => latest_urls found later
  end.

(** The references the [content] entries of a buffer were read from. *)
Fixpoint content_sources (buffer : list Intel) : list Reference :=
  match buffer with
  | [] => []
  | Urls _ :: later => content_sources later
  | Content source _ :: later => source :: content_sources later
  end.

(** A code unit that may stand in a URL component as it is, or the
    percent sign of an escape. *)
Definition url_safe (c : N) : bool := uri_unreserved c || (c =? 37).

(** Entries that are all contents read from the first two of [data]. *)
Definition read_from (data : list Reference) (entries : list Intel) : Prop :=
  Forall (fun entry => exists source text,
              entry = Content source text /\ In source (firstn 2 data))
         entries.

(** What reading [deepDives] one after the other pushes, from the state
    [s] of the outside world: the text the read provider returns for each
    reference, up to the first read that throws. *)
Fixpoint read_in_turn {Out} (this : Looper.Instance Out)
         (deepDives : list Reference) (s : Out) : list Intel :=
  match deepDives with
  | [] => []
  | url :: rest =>
      match Looper.scraper_read this url s with
      | (s', Return content) =>
          Content url content :: read_in_turn this rest s'
      | (_, Throw _) => []
      end
  end.

(** The provider calls made between two worlds. *)
Definition made {Out Ctx} (w w' : World Out Ctx) (searches reads : nat) : Prop :=
  count_search (trace w') = (count_search (trace w) + searches)%nat /\
  count_read (trace w') = (count_read (trace w) + reads)%nat.

End Measure.

(* ------------------------------------------------------------------ *)
(** ** The rest of context_engine.js

    [ContextGraph.extractEntities], [ContextGraph.processSnapshot] and
    [ContextSnapshotter.createSnapshot]. *)

Module ContextEngine.

(** [[A-Z]], [[a-z]], [\s] and [\w] of a regular expression without
    flags. *)
Definition is_upper (c : N) : bool := (65 <=? c) && (c <=? 90).
Definition is_lower (c : N) : bool := (97 <=? c) && (c <=? 122).
Definition is_space (c : N) : bool :=
  existsb (N.eqb c)
          [9; 10; 11; 12; 13; 32; 160; 5760; 8232; 8233; 8239; 8287;
           12288; 65279]
  || ((8192 <=? c) && (c <=? 8202)).
Definition is_word (c : N) : bool :=
  is_upper c || is_lower c || ((48 <=? c) && (c <=? 57)) || (c =? 95).

(** The longest run of [[a-z]] at the head, and what follows it.  A
    shorter run is followed by a lower-case letter, where neither [\s]
    nor [\b] can match, so backtracking into [[a-z]+] never succeeds. *)
Fixpoint lower_run (s : jsstring) : jsstring * jsstring :=
  match s with
  | c :: rest =>
      if is_lower c
      then let '(run, after) := lower_run rest in (c :: run, after)
      else ([], s)
  | [] => ([], [])
  end.

(** [[A-Z][a-z]+] at the head. *)
Definition capitalised (s : jsstring) : option (jsstring * jsstring) :=
  match s with
  | c :: rest =>
      if is_upper c then
        match lower_run rest with
        | ([], _) => None
        | (run, after) => Some (c :: run, after)
        end
      else None
  | [] => None
  end.

(** [\s[A-Z][a-z]+] at the head. *)
Definition group (s : jsstring) : option (jsstring * jsstring) :=
  match s with
  | c :: rest =>
      if is_space c then
        match capitalised rest with
        | Some (word, after) => Some (c :: word, after)
        | None => None
        end
      else None
  | [] => None
  end.

(** [\b] after a letter: the end of the text or a unit outside [\w]. *)
Definition boundary_after (s : jsstring) : bool :=
  match s with
  | [] => true
  | c :: _ => negb (is_word c)
  end.

(** [(?:\s[A-Z][a-z]+)*\b], greedy: one more group if the rest of the
    pattern then matches, else no more group and the boundary here. *)
Fixpoint groups (fuel : nat) (s : jsstring) : option (jsstring * jsstring) :=
  let stop := if boundary_after s then Some ([], s) else None in
  match fuel with
  | O => stop
  | S fuel' =>
      match group s with
      | Some (g, after) =>
          match groups fuel' after with
          | Some (more, rest) => Some (g ++ more, rest)
          | None => stop
          end
      | None => stop
      end
  end.

(** The whole pattern at one position; [prev] is the unit before it. *)
Definition match_at (prev : option N) (s : jsstring)
  : option (jsstring * jsstring) :=
  if match prev with None => true | Some p => negb (is_word p) end then
    match capitalised s with
    | Some (word, after) =>
        match groups (List.length after) after with
        | Some (more, rest) => Some (word ++ more, rest)
        | None => None
        end
    | None => None
    end
  else None.

(** The matches of the global expression, left to right: after a match
    the search goes on where the match ended, else one unit further. *)
Fixpoint scan (fuel : nat) (prev : option N) (s : jsstring) : list jsstring :=
  match fuel with
  | O => []
  | S fuel' =>
      match s with
      | [] => []
      | c :: rest =>
          match match_at prev s with
          | Some (m, after) => m :: scan fuel' (Some (last m c)) after
          | None => scan fuel' (Some c) rest
          end
      end
  end.

(** [extractEntities(text)]:
    [text.match(/\b[A-Z][a-z]+(?:\s[A-Z][a-z]+)*\b/g) || []] *)
Definition extractEntities (text : jsstring) : list jsstring :=
  scan (List.length text) None text.

(** [labels.forEach(label => this.addNode(label, type))]; [fresh i] is the
    identifier given to the node pushed at index [i]. *)
Definition addNodes (fresh : nat -> jsstring) (labels : list jsstring)
           (ty : jsstring) (g : ContextGraph.SessionGraph)
  : ContextGraph.SessionGraph :=
  fold_left
    (fun g lbl =>
       ContextGraph.addNode (fresh (List.length (ContextGraph.nodes g))) lbl ty g)
    labels g.

(** [text.match]: only a string has it. *)
Definition the_text (v : Value) : Result jsstring :=
  match v with
  | VStr text => Return text
  | VUndefined => Throw (TypeError "Cannot read properties of undefined")
  | VNull => Throw (TypeError "Cannot read properties of null")
  | _ => Throw (TypeError "text.match is not a function")
  end.

(** [processSnapshot(snapshot)] *)
Definition processSnapshot (fresh : nat -> jsstring) (snapshot : Value)
           (g : ContextGraph.SessionGraph) : Result ContextGraph.SessionGraph :=
  rbind (get_prop snapshot "visible_intel") (fun intel =>
  rbind (the_text intel) (fun text =>
  let entities := extractEntities text in
  let claims := ContextGraph.extractClaims text in
  let g1 := addNodes fresh entities (L "entity") g in
  let g2 := addNodes fresh claims (L "claim") g1 in
  Return (ContextGraph.mkGraph (ContextGraph.nodes g2) (ContextGraph.edges g2)
                               snapshot))).

(** [s.substring(0, 500)]: only a string has it. *)
Definition substring_0_500 (v : Value) : Result jsstring :=
  match v with
  | VStr text => Return (firstn 500 text)
  | VUndefined => Throw (TypeError "Cannot read properties of undefined")
  | VNull => Throw (TypeError "Cannot read properties of null")
  | _ => Throw (TypeError "sensorData.viewport_text.substring is not a function")
  end.

(** [ContextSnapshotter.createSnapshot(sensorData, metadata)]; [now1] and
    [now2] are what the two calls of [Date.now()] return. *)
Definition createSnapshot (now1 now2 : N) (sensorData : Value) : Result Value :=
  rbind (get_prop sensorData "viewport_text") (fun viewport_text =>
  rbind (substring_0_500 viewport_text) (fun visible_intel =>
  rbind (get_prop sensorData "structure") (fun structure =>
  rbind (get_prop structure "elements") (fun elements =>
  rbind (get_prop sensorData "interactions") (fun interactions =>
  rbind (get_prop sensorData "media") (fun media =>
  Return
    (VObj [ ("id"%string, VStr (L "snapshot-" ++ decimal now1));
            ("visible_intel"%string, VStr visible_intel);
            ("structural_anchors"%string, elements);
            ("interaction_pulse"%string, interactions);
            ("media_state"%string, media);
            ("timestamp"%string, VNum (inject_Z (Z.of_N now2)));
            ("ttl"%string, VNum 300000) ]))))))).

(** The labels of a graph's nodes. *)
Definition labels (g : ContextGraph.SessionGraph) : list jsstring :=
  map ContextGraph.label (ContextGraph.nodes g).

(** An entity as the expression lets it be: a capital letter first, a
    lower-case letter last, letters and white space only. *)
Definition lettered (s : jsstring) : Prop :=
  Forall (fun c => (is_upper c || is_lower c || is_space c) = true) s.

Definition entity_shaped (e : jsstring) : Prop :=
  (exists c rest, e = c :: rest /\ is_upper c = true) /\
  is_lower (last e 0) = true /\
  lettered e.

(** [text] cut into gaps and entities: a gap, then each entity followed
    by a gap. *)
Fixpoint weave (gap : jsstring) (pieces : list (jsstring * jsstring))
  : jsstring :=
  match pieces with
  | [] => gap
  | (entity, gap') :: later => gap ++ entity ++ weave gap' later
  end.

End ContextEngine.

(* ------------------------------------------------------------------ *)
(** ** [class Navigator] (navigator.js, src/unnamed/part_003)

    The class is handed a [ContextGraph] and keeps it in [this.graph];
    no method reads it.  [lower] stands for [String.prototype.toLowerCase],
    about which nothing is assumed. *)

Module Navigator.

(** A suggestion, [{ label, intent }]. *)
Record Bubble := mkBubble {
  bubble_label : jsstring;
  bubble_intent : jsstring
}.

(** [s.split(' ')]: the pieces between single spaces, empty ones kept. *)
Fixpoint split_space (s : jsstring) : list jsstring :=
  match s with
  | [] => [[]]
  | c :: rest =>
      if c =? 32 then [] :: split_space rest
      else match split_space rest with
           | piece :: pieces => (c :: piece) :: pieces
           | [] => [[c]]
           end
  end.

(** [words.join(' ')] *)
Fixpoint join_space (words : list jsstring) : jsstring :=
  match words with
  | [] => []
  | [word] => word
  | word :: later => word ++ 32 :: join_space later
  end.

Section Methods.
Variable lower : jsstring -> jsstring.

(** [extractKeywords(text)] *)
Definition extractKeywords (text : Value) : Result (list jsstring) :=
  if negb (truthy text) then Return []
  else
    match text with
    | VStr s =>
        Return (filter (fun w => (2 <? List.length w)%nat)
                       (split_space (lower s)))
    | _ => Throw (TypeError "text.toLowerCase is not a function")
    end.

(** [heuristicSuggestions(keywords, lastEntity)] *)
Definition heuristicSuggestions (keywords : list jsstring) (lastEntity : Value)
  : list Bubble :=
  let q := join_space keywords in
  if includes q (L "patent") || includes q (L "legal") then
    [ mkBubble (L "Draft for US") (L "patent_us");
      mkBubble (L "Draft for EU") (L "patent_eu");
      mkBubble (L "Prior Art Search") (L "search_art") ]
  else if includes q (L "video") || includes q (L "scene") then
    [ mkBubble (L "Action Scenes") (L "filter_action");
      mkBubble (L "Dialogue Only") (L "filter_dialogue");
      mkBubble (L "4K Resolution") (L "filter_4k") ]
  else if includes q (L "best") || includes q (L "top") then
    [ mkBubble (L "Under $100") (L "filter_price_low");
      mkBubble (L "Professional Reviews") (L "source_expert");
      mkBubble (L "Reddit Consensus") (L "source_social") ]
  else
    [ mkBubble (L "Deep Dive") (L "mode_deep");
      mkBubble (L "Quick Summary") (L "mode_fast");
      mkBubble (L "Visuals") (L "mode_images") ].

(** [async suggest(partialQuery, context = {})]: the [bubbles] of the
    result; its [context_update] is the constant [{ confidence: 0.7 }]. *)
Definition suggest (partialQuery : Value) (context : Fields)
  : Result (list Bubble * Q) :=
  rbind (extractKeywords partialQuery) (fun keywords =>
  let lastEntity := js_or (field "lastEntity" context) VNull in
  Return (heuristicSuggestions keywords lastEntity, 0.7%Q)).
End Methods.

Definition patent_bubbles : list Bubble :=
  [ mkBubble (L "Draft for US") (L "patent_us");
    mkBubble (L "Draft for EU") (L "patent_eu");
    mkBubble (L "Prior Art Search") (L "search_art") ].

(** A code-unit string without a space. *)
Definition spaceless (s : jsstring) : Prop := ~ In 32 s.

End Navigator.

(* ================================================================== *)
(** * Properties *)

(** ** Strings *)

Lemma str_eqb_eq (a b : jsstring) : str_eqb a b = true <-> a = b.
Proof.
  revert b; induction a as [|x a IH]; intros [|y b]; simpl;
    try (split; [discriminate | congruence]); try tauto.
  rewrite andb_true_iff, N.eqb_eq, IH.
  split; [intros [-> ->]; reflexivity | intros H; inversion H; auto].
Qed.

Lemma str_eqb_refl (a : jsstring) : str_eqb a a = true.
Proof. apply str_eqb_eq; reflexivity. Qed.

Lemma surrogate_not_unreserved (c : N) :
  is_surrogate c = true -> uri_unreserved c = false.
Proof.
  unfold is_surrogate, uri_unreserved; intros H.
  apply andb_true_iff in H as [Hlo _]; apply N.leb_le in Hlo.
  assert (Hgt : forall k, k < 55296 -> (c <=? k) = false /\ (c =? k) = false).
  { intros k Hk; split; [apply N.leb_gt | apply N.eqb_neq]; lia. }
  simpl.
  rewrite !(proj1 (Hgt 90 ltac:(lia))), !(proj1 (Hgt 122 ltac:(lia))),
          !(proj1 (Hgt 57 ltac:(lia))).
  rewrite !andb_false_r; simpl.
  rewrite !(proj2 (Hgt 45 ltac:(lia))), !(proj2 (Hgt 95 ltac:(lia))),
    !(proj2 (Hgt 46 ltac:(lia))), !(proj2 (Hgt 33 ltac:(lia))),
    !(proj2 (Hgt 126 ltac:(lia))), !(proj2 (Hgt 42 ltac:(lia))),
    !(proj2 (Hgt 39 ltac:(lia))), !(proj2 (Hgt 40 ltac:(lia))),
    !(proj2 (Hgt 41 ltac:(lia))).
  reflexivity.
Qed.

(** [encodeURIComponent] returns on the well-formed strings and throws a
    URIError on the others; by induction on a bound of the length, since
    a surrogate pair consumes two code units. *)
Lemma encodeURIComponent_bounded (n : nat) :
  forall s, (List.length s <= n)%nat ->
    (isWellFormed s = true -> exists enc, encodeURIComponent s = Return enc) /\
    (isWellFormed s = false ->
     encodeURIComponent s = Throw (URIError "URI malformed")).
Proof.
  induction n as [|n IH]; intros [|c rest] Hlen; simpl in Hlen; try lia.
  - split; [exists []; reflexivity | discriminate].
  - split; [exists []; reflexivity | discriminate].
  - assert (Hrest := IH rest ltac:(lia)).
    simpl.
    destruct (is_surrogate c) eqn:Hs; simpl.
    + rewrite (surrogate_not_unreserved c Hs).
      destruct (is_low_surrogate c); [split; [discriminate | reflexivity]|].
      destruct rest as [|c2 rest']; [split; [discriminate | reflexivity]|].
      destruct (is_low_surrogate c2); simpl;
        [|split; [discriminate | reflexivity]].
      destruct (IH rest' ltac:(simpl in Hlen; lia)) as [Hok Hko].
      split; intros Hwf.
      * destruct (Hok Hwf) as [enc ->]; simpl; eauto.
      * rewrite (Hko Hwf); reflexivity.
    + destruct Hrest as [Hok Hko].
      destruct (uri_unreserved c); split; intros Hwf;
        try (destruct (Hok Hwf) as [enc ->]; simpl; eauto; fail);
        rewrite (Hko Hwf); reflexivity.
Qed.

Lemma encodeURIComponent_returns (s : jsstring) :
  isWellFormed s = true -> exists enc, encodeURIComponent s = Return enc.
Proof. apply (encodeURIComponent_bounded (List.length s) s (Nat.le_refl _)). Qed.

Lemma encodeURIComponent_throws (s : jsstring) :
  isWellFormed s = false ->
  encodeURIComponent s = Throw (URIError "URI malformed").
Proof. apply (encodeURIComponent_bounded (List.length s) s (Nat.le_refl _)). Qed.

Example encodeURIComponent_ascii :
  encodeURIComponent (L "a b/c?d=e&f") = Return (L "a%20b%2Fc%3Fd%3De%26f").
Proof. reflexivity. Qed.

(** U+00E9, U+20AC and the pair D83D DE00 (U+1F600). *)
Example encodeURIComponent_utf8 :
  encodeURIComponent [233; 8364; 55357; 56832]
  = Return (L "%C3%A9%E2%82%AC%F0%9F%98%80").
Proof. reflexivity. Qed.

(** ** The bundled search provider *)

(** Whatever the query, [search] does not return an empty sequence. *)
Lemma search_never_empty (query : jsstring) (options : Fields) :
  WebSearcher.search query options <> Return [].
Proof.
  unfold WebSearcher.search.
  destruct (encodeURIComponent query); simpl; discriminate.
Qed.

(** C10, as the code has it: a query with an unpaired surrogate is a
    string the request handler can receive, and [search] rejects on it
    with the URIError of [encodeURIComponent]. *)
Lemma search_throws_on_unpaired_surrogate :
  Forall (fun c => c < 65536) [55296] /\
  WebSearcher.search [55296] [] = Throw (URIError "URI malformed").
Proof. split; [repeat constructor | reflexivity]. Qed.

(** C10 (amended): for every query and every options object,
    [WebSearcher.search] either returns or throws the URIError of
    [encodeURIComponent]; it returns exactly when the query has no unpaired
    surrogate, and what it returns is a sequence of exactly six
    references, never an empty one, the url of each being a fixed prefix
    followed by [encodeURIComponent(query)]. *)
Theorem search_returns_six_references (query : jsstring) (options : Fields) :
  match WebSearcher.search query options with
  | Return refs =>
      isWellFormed query = true /\
      List.length refs = 6%nat /\
      refs <> [] /\
      exists enc,
        encodeURIComponent query = Return enc /\
        map url refs = map (fun prefix => prefix ++ enc) Spec.search_url_prefixes
  | Throw e =>
      isWellFormed query = false /\ e = URIError "URI malformed"
  end.
Proof.
  unfold WebSearcher.search.
  destruct (isWellFormed query) eqn:Hwf.
  - destruct (encodeURIComponent_returns query Hwf) as [enc ->]. simpl.
    repeat split; try discriminate. exists enc. split; reflexivity.
  - rewrite (encodeURIComponent_throws query Hwf). simpl. split; reflexivity.
Qed.

Example search_cats_and_dogs :
  option_map (map url)
    (match WebSearcher.search (L "cats & dogs") [] with
     | Return refs => Some refs
     | Throw _ => None
     end) =
  Some (map (fun prefix => prefix ++ L "cats%20%26%20dogs")
            Spec.search_url_prefixes).
Proof. reflexivity. Qed.

(** ** The coordinator *)

Example classify_compare :
  Spec.classify (L "Compare X and Y") = Coordinator.DEEP_RESEARCH.
Proof. reflexivity. Qed.

(** An earlier rule wins over a later one. *)
Example classify_priority :
  Spec.classify (L "find a PATENT on video codecs")
  = Coordinator.MEDIA_COMPILATION.
Proof. reflexivity. Qed.

Example classify_catch_all :
  Spec.classify (L "weather tomorrow") = Coordinator.GENERAL_QUERY.
Proof. reflexivity. Qed.

Lemma generateSteps_nonempty (i : Intent) (query : jsstring) :
  Coordinator.generateSteps i query <> [].
Proof.
  unfold Coordinator.generateSteps.
  repeat match goal with
         | |- context [if ?b then _ else _] => destruct b
         end; discriminate.
Qed.

Lemma classifyIntent_first_match {Out Ctx} (query : jsstring) (w : World Out Ctx) :
  Coordinator.classifyIntent query w = (w, Return (Spec.classify query)).
Proof.
  unfold Coordinator.classifyIntent, Spec.classify, Spec.catch_all.
  cbn -[includes L toLowerCase].
  rewrite !orb_false_r, !orb_assoc.
  repeat match goal with
         | |- context [if ?b then _ else _] => destruct b
         end; reflexivity.
Qed.

(** C8: [classifyIntent] yields the same intent whenever and wherever it
    is invoked on a query; that intent is the category of the first rule,
    in the fixed order media, offline, research, adult, with a keyword
    occurring in the lower-cased query, and the catch-all category when no
    rule matches, whose confidence is the least of all categories. *)
Theorem classifyIntent_deterministic
        {Out Ctx} (query : jsstring) (w1 w2 : World Out Ctx) :
  snd (Coordinator.classifyIntent query w1) =
  snd (Coordinator.classifyIntent query w2) /\
  Coordinator.classifyIntent query w1 = (w1, Return (Spec.classify query)) /\
  match Spec.first_match Spec.rules (toLowerCase query) with
  | Some category => Spec.classify query = category
  | None => Spec.classify query = Coordinator.GENERAL_QUERY
  end /\
  Forall (fun category =>
            (confidence Coordinator.GENERAL_QUERY <= confidence category)%Q)
         Spec.categories.
Proof.
  rewrite !classifyIntent_first_match.
  repeat split.
  - unfold Spec.classify.
    destruct (Spec.first_match Spec.rules (toLowerCase query)); reflexivity.
  - repeat constructor; unfold Qle; simpl; lia.
Qed.

Lemma plan_returns
      {Out Ctx} (date_now : Out -> N) (query : jsstring) (w : World Out Ctx) :
  Coordinator.plan date_now query w =
    (w, Return (mkPlan (L "plan-" ++ decimal (date_now (real w)))
                       (Spec.classify query)
                       (Coordinator.generateSteps (Spec.classify query) query))).
Proof.
  unfold Coordinator.plan, bind.
  rewrite classifyIntent_first_match. reflexivity.
Qed.

(** C6, as the code has it: [plan] on the empty query returns a plan. *)
Lemma plan_accepts_the_empty_query :
  Spec.blank (L "") = true /\
  Coordinator.plan Sample.clock (L "") Sample.start_world =
    (Sample.start_world,
     Return (mkPlan (L "plan-1700000000000") Coordinator.GENERAL_QUERY
                    [Sample.search_step])) /\
  forall e, snd (Coordinator.plan Sample.clock (L "") Sample.start_world)
            <> Throw e.
Proof. repeat split; discriminate. Qed.

(** C6 (amended): [plan] never fails, whatever the query, the empty and
    the blank ones included; it leaves the world as it found it, so no
    provider is called; and the plan it returns carries the classified
    intent and a non-empty list of steps. *)
Theorem plan_never_fails
        {Out Ctx} (date_now : Out -> N) (query : jsstring) (w : World Out Ctx) :
  exists p,
    Coordinator.plan date_now query w = (w, Return p) /\
    intent p = Spec.classify query /\
    steps p = Coordinator.generateSteps (intent p) query /\
    steps p <> [].
Proof.
  rewrite plan_returns.
  eexists; repeat split. simpl. apply generateSteps_nonempty.
Qed.

(** C5: the loop's call [Coordinator.replan(query, audit.missing_info)]
    throws, for every query and every feedback: the class declares no
    [replan]. *)
Theorem replan_is_not_a_function
        {Out Ctx} (query : jsstring) (missing_info : option jsstring)
        (w : World Out Ctx) :
  Coordinator.declares "replan" = false /\
  call_static "Coordinator.replan"
              (option_map (fun m => m query missing_info) Coordinator.replan) w =
    (w, Throw (TypeError "Coordinator.replan is not a function")).
Proof. split; reflexivity. Qed.

(** ** Executing a plan *)

Section ExecuteSteps.
Context {Out Ctx : Type}.
Variable G : Looper.Scope.
Variable this : Looper.Instance Out.

(** The pushes of a step go after whatever the buffer already holds. *)
Lemma deepDive_buffer (deepDives : list Reference) :
  forall (before results : list Intel) (w : World Out Ctx),
    Looper.deepDive this deepDives (before ++ results) w =
    let '(w', results', r) := Looper.deepDive this deepDives results w in
    (w', before ++ results', r).
Proof.
  induction deepDives as [|u rest IH]; intros before results w; simpl.
  - reflexivity.
  - destruct (Looper.scraper_read this u (real w)) as [s' [content|e]].
    + rewrite <- app_assoc. apply IH.
    + reflexivity.
Qed.

Lemma step_body_buffer (step : Step) (before results : list Intel)
      (w : World Out Ctx) :
  Looper.step_body G this step (before ++ results) w =
  let '(w', results', r) := Looper.step_body G this step results w in
  (w', before ++ results', r).
Proof.
  unfold Looper.step_body.
  destruct (str_eqb (tool step) (L "web_search")); [|reflexivity].
  destruct (Looper.searchOptions_expr G step) as [opts|e]; [|reflexivity].
  destruct (Looper.query_expr G step) as [q|e]; [|reflexivity].
  destruct (Looper.searcher_search this q opts _) as [s' [urls|e]];
    [|reflexivity].
  rewrite <- app_assoc. apply deepDive_buffer.
Qed.

Lemma for_steps_buffer (steps : list Step) :
  forall (before results : list Intel) (w : World Out Ctx),
    Looper.for_steps G this steps (before ++ results) w =
    let '(w', results') := Looper.for_steps G this steps results w in
    (w', before ++ results').
Proof.
  induction steps as [|step rest IH]; intros before results w; simpl.
  - reflexivity.
  - unfold Looper.try_step. rewrite step_body_buffer.
    destruct (Looper.step_body G this step results w) as [[w' results'] r].
    apply IH.
Qed.

(** [executeSteps] catches whatever a step throws. *)
Lemma executeSteps_never_throws (steps : list Step) (w : World Out Ctx) :
  exists w' results,
    Looper.executeSteps G this steps w = (w', Return results).
Proof.
  unfold Looper.executeSteps.
  destruct (Looper.for_steps G this steps [] w) as [w' results]; eauto.
Qed.

(** After a step, failed or not, the remaining steps run as
    [executeSteps] runs them. *)
Lemma executeSteps_cons (step : Step) (rest : list Step) (w : World Out Ctx) :
  Looper.executeSteps G this (step :: rest) w =
  let '(w1, pushed) := Looper.try_step G this step [] w in
  match Looper.executeSteps G this rest w1 with
  | (w2, Return more) => (w2, Return (pushed ++ more))
  | (w2, Throw e) => (w2, Throw e)
  end.
Proof.
  unfold Looper.executeSteps; simpl.
  destruct (Looper.try_step G this step [] w) as [w1 pushed].
  rewrite <- (app_nil_r pushed) at 1. rewrite for_steps_buffer.
  destruct (Looper.for_steps G this rest [] w1); reflexivity.
Qed.

(** When the global object has no [plan], a step changes nothing. *)
Lemma try_step_without_plan (step : Step) (results : list Intel)
      (w : World Out Ctx) :
  G "plan"%string = None ->
  Looper.try_step G this step results w = (w, results).
Proof.
  intros HG. unfold Looper.try_step, Looper.step_body.
  destruct (str_eqb (tool step) (L "web_search")); [|reflexivity].
  unfold Looper.searchOptions_expr, Looper.resolve. rewrite HG. reflexivity.
Qed.

Lemma for_steps_without_plan (steps : list Step) (results : list Intel)
      (w : World Out Ctx) :
  G "plan"%string = None ->
  Looper.for_steps G this steps results w = (w, results).
Proof.
  intros HG. induction steps as [|step rest IH]; simpl; [reflexivity|].
  rewrite try_step_without_plan by assumption. exact IH.
Qed.
End ExecuteSteps.

Lemma executeSteps_in_global_scope
      {Out Ctx} (this : Looper.Instance Out) (steps : list Step)
      (w : World Out Ctx) :
  Looper.executeSteps Looper.global_scope this steps w = (w, Return []).
Proof.
  unfold Looper.executeSteps.
  rewrite for_steps_without_plan; reflexivity.
Qed.

(** C9: for every list of steps, [executeSteps] returns an empty buffer
    and calls no provider; [plan] and [query] are free in its body and the
    global scope defines neither. *)
Theorem executeSteps_returns_empty_buffer
        {Out Ctx} (this : Looper.Instance Out) (steps : list Step)
        (w : World Out Ctx) :
  Looper.free "plan" = true /\ Looper.free "query" = true /\
  Looper.executeSteps Looper.global_scope this steps w = (w, Return []).
Proof.
  repeat split. apply executeSteps_in_global_scope.
Qed.

(** C3: in the scope looper.js runs in, scenario D is never reached.  A
    [web_search] step throws a ReferenceError ([plan] is not defined)
    inside its [try] block, before the search provider is called; the
    [catch] swallows it.  So for whatever providers -- a read provider that
    fails for the first reference and succeeds for the second included --
    no reference is read and the buffer [executeSteps] returns is empty:
    the content of the second reference is not added to it. *)
Theorem scenarioD_is_never_reached
        {Out Ctx} (this : Looper.Instance Out) (step : Step) (rest : list Step)
        (results : list Intel) (w : World Out Ctx) :
  tool step = L "web_search" ->
  Looper.step_body Looper.global_scope this step results w =
    (w, results, Throw (ReferenceError "plan is not defined")) /\
  Looper.executeSteps Looper.global_scope this (step :: rest) w =
    (w, Return []).
Proof.
  intros Htool. split.
  - unfold Looper.step_body. rewrite Htool, str_eqb_refl. reflexivity.
  - apply executeSteps_in_global_scope.
Qed.

(** Scenario D itself: two references are found, the read of the first
    one would fail and the read of the second one would succeed; the step
    the coordinator generates for a general query fails before either is
    attempted. *)
Lemma scenarioD_is_never_reached_witness :
  snd (Looper.scraper_read Sample.scenarioD Sample.ref1 tt)
    = Throw Sample.ContentUnreadable /\
  snd (Looper.scraper_read Sample.scenarioD Sample.ref2 tt)
    = Return (L "the text of the second page") /\
  Looper.step_body Looper.global_scope Sample.scenarioD Sample.search_step
                   [] Sample.start_world =
    (Sample.start_world, [],
     Throw (ReferenceError "plan is not defined")) /\
  Looper.executeSteps Looper.global_scope Sample.scenarioD
                      [Sample.search_step] Sample.start_world =
    (Sample.start_world, Return []).
Proof.
  split; [reflexivity|]. split; [reflexivity|].
  apply (scenarioD_is_never_reached
           Sample.scenarioD Sample.search_step [] [] Sample.start_world).
  reflexivity.
Defined.

(** ** The evaluator *)

(** C4, as the code has it: at exactly 1000 words the evaluator answers
    0.7, below 0.85, with a missing-info message. *)
Lemma evaluateProgress_at_1000_words :
  Looper.evaluateProgress Sample.counting_context (L "tides")
                          (Sample.world_with 1000) =
    (mkWorld tt 1000%Z [CallEvaluate],
     Return (mkAudit 0.7 (Some (L "Need more details")))) /\
  ~ (0.85 <= 0.7)%Q.
Proof.
  split; [reflexivity|].
  unfold Qle; simpl; lia.
Qed.

(** C4 (amended): for every context object whose [getTotalWordCount()]
    returns [n], the evaluator returns an audit; when [n] is more than
    1000 it is satisfaction 0.9, which is at least 0.85, with no
    missing-info message; when [n] is at most 500 (in particular below
    500) it is satisfaction 0.3 with the message that the search failed to
    yield content. *)
Theorem evaluateProgress_thresholds
        {Out Ctx} (Context : Looper.ContextClass Out Ctx) (query : jsstring)
        (w : World Out Ctx) (m : Method Out Ctx Z) (n : Z) (c' : Ctx) (s' : Out) :
  Looper.getTotalWordCount Context = Some m ->
  m (store w) (real w) = (c', s', Return n) ->
  exists audit,
    Looper.evaluateProgress Context query w =
      (mkWorld s' c' (trace w ++ [CallEvaluate]), Return audit) /\
    ((1000 < n)%Z ->
     audit = mkAudit 0.9 None /\ (0.85 <= satisfaction audit)%Q) /\
    ((n <= 500)%Z ->
     audit = mkAudit 0.3 (Some (L "Search failed to yield content")) /\
     (satisfaction audit < 0.85)%Q).
Proof.
  intros Hm Hcall.
  unfold Looper.evaluateProgress, bind, record, call_method; simpl.
  rewrite Hm; simpl. rewrite Hcall.
  destruct (1000 <? n)%Z eqn:Hhigh; [|destruct (500 <? n)%Z eqn:Hlow];
    eexists; (split; [reflexivity|]);
    try apply Z.ltb_lt in Hhigh; try apply Z.ltb_ge in Hhigh;
    try apply Z.ltb_lt in Hlow; try apply Z.ltb_ge in Hlow;
    split; intros Hn; try lia;
    (split; [reflexivity | unfold Qle, Qlt; simpl; lia]).
Qed.

Lemma evaluateProgress_thresholds_witness :
  exists audit,
    Looper.evaluateProgress Sample.counting_context (L "tides")
                            (Sample.world_with 1001) =
      (mkWorld tt 1001%Z ([] ++ [CallEvaluate]), Return audit) /\
    audit = mkAudit 0.9 None /\ (0.85 <= satisfaction audit)%Q.
Proof.
  destruct (evaluateProgress_thresholds
              Sample.counting_context (L "tides") (Sample.world_with 1001)
              (fun c s => (c, s, Return c)) 1001%Z 1001%Z tt
              eq_refl eq_refl) as [audit [Hrun [Hhigh _]]].
  exists audit. split; [exact Hrun|]. apply Hhigh. reflexivity.
Defined.

(** ** The loop on the classes of the source *)

(** C1: on the [ContextGraph] that looper.js imports, [start] throws
    for every query, every options object and every pair of providers,
    before the loop is entered: the class declares no [logInteraction]. *)
Theorem start_throws_before_the_loop
        {Out} (date_now : Out -> N) (this : Looper.Instance Out) (fuel : nat)
        (query : jsstring) (options : Fields)
        (w : World Out ContextGraph.SessionGraph) :
  ContextGraph.declares "logInteraction" = false /\
  Looper.start_source date_now this fuel query options w =
    Some (mkWorld (real w) ContextGraph.constructor (trace w),
          Throw (TypeError "context.logInteraction is not a function")).
Proof.
  split; [reflexivity|].
  unfold Looper.start_source, Looper.start, bind.
  simpl. rewrite plan_returns. reflexivity.
Qed.

(** C7: on the [ContextGraph] of the source nothing is ingested and no
    word count exists: the class declares neither [ingest] nor
    [getTotalWordCount], so one pass through the loop body throws at
    [context.ingest(newIntel)], for every plan and every provider, and
    leaves the context object as it was; the evaluator throws likewise. *)
Theorem ingest_is_not_a_function
        {Out} (this : Looper.Instance Out) (query : jsstring) (plan : Plan)
        (w : World Out ContextGraph.SessionGraph) :
  ContextGraph.declares "ingest" = false /\
  ContextGraph.declares "getTotalWordCount" = false /\
  Looper.iteration Looper.global_scope (Looper.ContextGraph_class Out)
                   Coordinator.replan this query plan w =
    (w, Throw (TypeError "context.ingest is not a function")) /\
  snd (Looper.evaluateProgress (Looper.ContextGraph_class Out) query w) =
    Throw (TypeError "context.getTotalWordCount is not a function").
Proof.
  repeat split.
  unfold Looper.iteration, bind.
  rewrite executeSteps_in_global_scope. reflexivity.
Qed.

(** ** Termination of the loop and the number of evaluator calls *)

Lemma count_evaluate_app (a b : list Event) :
  count_evaluate (a ++ b) = (count_evaluate a + count_evaluate b)%nat.
Proof. unfold count_evaluate. rewrite filter_app, length_app. reflexivity. Qed.

Section Budget.
Context {Out Ctx : Type}.
Variable date_now : Out -> N.
Variable G : Looper.Scope.
Variable Context : Looper.ContextClass Out Ctx.
Variable Coordinator_replan :
  option (jsstring -> option jsstring -> Provider Out Plan).
Variable this : Looper.Instance Out.

Lemma call_method_evals {A} (name : string) (m : option (Method Out Ctx A))
      (w : World Out Ctx) :
  evals (fst (call_method name m w)) = evals w.
Proof.
  unfold call_method. destruct m as [f|]; [|reflexivity].
  destruct (f (store w) (real w)) as [[c' s'] r]. reflexivity.
Qed.

Lemma call_static_evals {A} (name : string) (m : option (Provider Out A))
      (w : World Out Ctx) :
  evals (fst (call_static name m w)) = evals w.
Proof.
  unfold call_static, call_provider. destruct m as [f|]; [|reflexivity].
  destruct (f (real w)) as [s' r]. reflexivity.
Qed.

Lemma evals_snoc (s : Out) (c : Ctx) (t : list Event) (ev : Event) :
  evals (mkWorld s c (t ++ [ev])) =
  (count_evaluate t + match ev with CallEvaluate => 1 | _ => 0 end)%nat.
Proof.
  unfold evals; simpl. rewrite count_evaluate_app.
  destruct ev; reflexivity.
Qed.

Lemma deepDive_evals (deepDives : list Reference) :
  forall (results : list Intel) (w : World Out Ctx),
    evals (fst (fst (Looper.deepDive this deepDives results w))) = evals w.
Proof.
  induction deepDives as [|u rest IH]; intros results w; simpl; [reflexivity|].
  destruct (Looper.scraper_read this u (real w)) as [s' [content|e]].
  - rewrite IH. unfold Looper.with_real, Looper.logged; simpl.
    rewrite evals_snoc. unfold evals. lia.
  - unfold Looper.with_real, Looper.logged; simpl.
    rewrite evals_snoc. unfold evals. lia.
Qed.

Lemma try_step_evals (step : Step) (results : list Intel) (w : World Out Ctx) :
  evals (fst (Looper.try_step G this step results w)) = evals w.
Proof.
  unfold Looper.try_step, Looper.step_body.
  destruct (str_eqb (tool step) (L "web_search")); [|reflexivity].
  destruct (Looper.searchOptions_expr G step) as [opts|e]; [|reflexivity].
  destruct (Looper.query_expr G step) as [q|e]; [|reflexivity].
  destruct (Looper.searcher_search this q opts _) as [s' [urls|e]] eqn:Hs.
  - match goal with
    | |- context [Looper.deepDive ?t ?d ?r ?w0] =>
        pose proof (deepDive_evals d r w0) as Hd;
        destruct (Looper.deepDive t d r w0) as [[w' results'] r']
    end.
    simpl in *. rewrite Hd. unfold Looper.with_real, Looper.logged; simpl.
    rewrite evals_snoc. unfold evals. lia.
  - unfold Looper.with_real, Looper.logged; simpl.
    rewrite evals_snoc. unfold evals. lia.
Qed.

Lemma executeSteps_evals (steps : list Step) (w : World Out Ctx) :
  evals (fst (Looper.executeSteps G this steps w)) = evals w.
Proof.
  unfold Looper.executeSteps.
  generalize (@nil Intel) as results. revert w.
  induction steps as [|step rest IH]; intros w results; simpl; [reflexivity|].
  pose proof (try_step_evals step results w) as Hstep.
  destruct (Looper.try_step G this step results w) as [w1 results1].
  specialize (IH w1 results1).
  destruct (Looper.for_steps G this rest results1 w1) as [w2 results2].
  simpl in *. congruence.
Qed.

Lemma evaluateProgress_evals (query : jsstring) (w : World Out Ctx) :
  evals (fst (Looper.evaluateProgress Context query w)) = Datatypes.S (evals w).
Proof.
  unfold Looper.evaluateProgress, bind, record.
  match goal with
  | |- context [call_method ?n ?m ?w0] =>
      pose proof (call_method_evals n m w0) as Hc;
      destruct (call_method n m w0) as [w1 [wordCount|e]]
  end; simpl in Hc.
  - assert (Hw : evals w1 = Datatypes.S (evals w)).
    { rewrite Hc, evals_snoc. unfold evals. lia. }
    destruct (1000 <? wordCount)%Z; [|destruct (500 <? wordCount)%Z];
      simpl; exact Hw.
  - simpl. rewrite Hc, evals_snoc. unfold evals. lia.
Qed.

(** One pass through the loop body calls the evaluator at most once. *)
Lemma iteration_evals (query : jsstring) (plan : Plan) (w : World Out Ctx) :
  (evals (fst (Looper.iteration G Context Coordinator_replan this query plan w))
   <= Datatypes.S (evals w))%nat.
Proof.
  unfold Looper.iteration, bind.
  pose proof (executeSteps_evals (steps plan) w) as He.
  pose proof (executeSteps_never_throws G this (steps plan) w)
    as [w1 [newIntel Hrun]].
  rewrite Hrun in *. simpl in He.
  match goal with
  | |- context [call_method ?n ?m ?w0] =>
      pose proof (call_method_evals n m w0) as Hi;
      destruct (call_method n m w0) as [w2 [[]|e]]
  end; simpl in Hi; [|simpl; lia].
  pose proof (evaluateProgress_evals query w2) as Ha.
  destruct (Looper.evaluateProgress Context query w2) as [w3 [audit|e]];
    simpl in Ha; [|simpl; lia].
  destruct (Qgt_bool (satisfaction audit) 0.85); [simpl; lia|].
  match goal with
  | |- context [call_static ?n ?m ?w0] =>
      pose proof (call_static_evals n m w0) as Hr;
      destruct (call_static n m w0) as [w4 [plan'|e]]
  end; simpl in *; lia.
Qed.

(** With more fuel than iterations left the loop reaches its exit,
    having called the evaluator at most once per iteration left. *)
Lemma while_loop_terminates (query : jsstring) (maxIter : nat) (fuel : nat) :
  forall (iterations : nat) (plan : Plan) (w : World Out Ctx),
    (maxIter - iterations < fuel)%nat ->
    exists w' r,
      Looper.while_loop G Context Coordinator_replan this fuel query
                        maxIter iterations plan w = Some (w', r) /\
      (evals w' <= evals w + (maxIter - iterations))%nat.
Proof.
  induction fuel as [|fuel IH]; intros iterations plan w Hfuel; [lia|].
  simpl.
  destruct (iterations <? maxIter)%nat eqn:Hlt.
  - apply Nat.ltb_lt in Hlt.
    pose proof (iteration_evals query plan w) as Hbody.
    destruct (Looper.iteration G Context Coordinator_replan this query plan w)
      as [w1 [[|plan']|e]]; simpl in Hbody.
    + exists w1, (Return tt). split; [reflexivity | lia].
    + destruct (IH (Datatypes.S iterations) plan' w1 ltac:(lia))
        as [w' [r [Hrun Hcount]]].
      exists w', r. split; [exact Hrun | lia].
    + exists w1, (Throw e). split; [reflexivity | lia].
  - exists w, (Return tt). split; [reflexivity | lia].
Qed.

Lemma synthesize_evals (query : jsstring) (w : World Out Ctx) :
  evals (fst (Looper.synthesize Context query w)) = evals w.
Proof.
  unfold Looper.synthesize, bind.
  match goal with
  | |- context [call_method ?n ?m ?w0] =>
      pose proof (call_method_evals n m w0) as H1;
      destruct (call_method n m w0) as [w1 [count|e]]
  end; simpl in H1; [|exact H1].
  match goal with
  | |- context [call_method ?n ?m ?w0] =>
      pose proof (call_method_evals n m w0) as H2;
      destruct (call_method n m w0) as [w2 [found|e]]
  end; simpl in *; congruence.
Qed.

Lemma start_runs (query : jsstring) (options : Fields) (fuel : nat)
      (w : World Out Ctx) :
  (Looper.maxIterations options < fuel)%nat ->
  exists w' r,
    Looper.start date_now G Context Coordinator_replan this fuel query
                 options w = Some (w', r) /\
    (evals w' <= evals w + Looper.maxIterations options)%nat.
Proof.
  intros Hfuel. unfold Looper.start, bind.
  rewrite plan_returns.
  match goal with
  | |- context [call_method ?n ?m ?w0] =>
      pose proof (call_method_evals n m w0) as Hl;
      destruct (call_method n m w0) as [w1 [[]|e]]
  end; simpl in Hl.
  - simpl.
    match goal with
    | |- context [Looper.while_loop _ _ _ _ _ _ _ _ ?p _] =>
        destruct (while_loop_terminates
                    query (Looper.maxIterations options) fuel
                    0%nat p w1 ltac:(lia)) as [w2 [r [Hrun Hcount]]]
    end.
    rewrite Hrun.
    destruct r as [[]|e].
    + pose proof (synthesize_evals query w2) as Hs.
      destruct (Looper.synthesize Context query w2) as [w3 r3].
      exists w3, r3. simpl in Hs. split; [reflexivity|].
      unfold evals in *; simpl in *. lia.
    + exists w2, (Throw e). split; [reflexivity|].
      unfold evals in *; simpl in *. lia.
  - simpl. eexists; eexists; split; [reflexivity|].
    unfold evals in *; simpl in *. lia.
Qed.
End Budget.

Lemma maxIterations_deep (options : Fields) :
  (field "depth" options = VStr (L "deep") -> Looper.maxIterations options = 4%nat)
  /\
  (field "depth" options <> VStr (L "deep") -> Looper.maxIterations options = 2%nat).
Proof.
  unfold Looper.maxIterations, strict_eq_str. split.
  - intros ->. rewrite str_eqb_refl. reflexivity.
  - intros Hne. destruct (field "depth" options) as [| | | |s| |]; try reflexivity.
    destruct (str_eqb s (L "deep")) eqn:Heq; [|reflexivity].
    apply str_eqb_eq in Heq. subst s. congruence.
Qed.

(** C2: for every query, every options object, every pair of providers
    and every implementation of the imported classes, [start] comes to
    an end once the fuel exceeds the iteration budget, having called the
    evaluator at most budget times, hence at most budget + 1 times; the
    budget is 4 when [options.depth] is ['deep'] and 2 otherwise. *)
Theorem start_terminates_within_budget
        {Out Ctx} (date_now : Out -> N) (G : Looper.Scope)
        (Context : Looper.ContextClass Out Ctx)
        (Coordinator_replan :
           option (jsstring -> option jsstring -> Provider Out Plan))
        (this : Looper.Instance Out) (query : jsstring) (options : Fields)
        (fuel : nat) (w : World Out Ctx) :
  (Looper.maxIterations options < fuel)%nat ->
  exists w' r,
    Looper.start date_now G Context Coordinator_replan this fuel query
                 options w = Some (w', r) /\
    (evals w' <= evals w + Looper.maxIterations options)%nat /\
    (evals w' <= evals w + (Looper.maxIterations options + 1))%nat /\
    (field "depth" options = VStr (L "deep") ->
     Looper.maxIterations options = 4%nat) /\
    (field "depth" options <> VStr (L "deep") ->
     Looper.maxIterations options = 2%nat).
Proof.
  intros Hfuel.
  destruct (start_runs date_now G Context Coordinator_replan this
                       query options fuel w Hfuel) as [w' [r [Hrun Hcount]]].
  exists w', r. repeat split; try assumption; try lia;
    apply maxIterations_deep.
Qed.

Lemma start_terminates_within_budget_witness :
  (Looper.maxIterations Sample.deep < 5)%nat /\
  exists w' r,
    Looper.start Sample.clock Sample.globals_with_plan Sample.counting_context
                 Sample.replan_again Sample.scenarioD 5 (L "why tides")
                 Sample.deep (Sample.world_with 0) = Some (w', r) /\
    (evals w' <= 0 + (4 + 1))%nat /\
    Looper.maxIterations Sample.deep = 4%nat.
Proof.
  assert (Hfuel : (Looper.maxIterations Sample.deep < 5)%nat)
    by (vm_compute; lia).
  split; [exact Hfuel|].
  destruct (start_terminates_within_budget
              Sample.clock Sample.globals_with_plan Sample.counting_context
              Sample.replan_again Sample.scenarioD (L "why tides")
              Sample.deep 5 (Sample.world_with 0) Hfuel)
    as [w' [r [Hrun [_ [Hcount [Hdeep _]]]]]].
  exists w', r.
  split; [exact Hrun | split; [exact Hcount | apply Hdeep; reflexivity]].
Defined.

(** ** The loop on classes that implement what it calls

    What [start] does once the imported classes have the methods it
    calls and these methods do not throw: whatever the providers do,
    failing at every call included, it returns a synthesis. *)

Section Implemented.
Context {Out Ctx : Type}.
Variable date_now : Out -> N.
Variable G : Looper.Scope.
Variable Context : Looper.ContextClass Out Ctx.
Variable Coordinator_replan :
  option (jsstring -> option jsstring -> Provider Out Plan).
Variable this : Looper.Instance Out.

Hypothesis logInteraction_returns :
  forall tag plan,
    method_returns (option_map (fun m => m tag plan)
                               (Looper.logInteraction Context)).
Hypothesis ingest_returns :
  forall newIntel,
    method_returns (option_map (fun m => m newIntel) (Looper.ingest Context)).
Hypothesis getTotalWordCount_returns :
  method_returns (Looper.getTotalWordCount Context).
Hypothesis getSourceCount_returns :
  method_returns (Looper.getSourceCount Context).
Hypothesis getSources_returns :
  method_returns (Looper.getSources Context).
Hypothesis replan_returns :
  forall query missing,
    static_returns (option_map (fun m => m query missing) Coordinator_replan).

Lemma call_method_returns {A} (name : string) (m : option (Method Out Ctx A))
      (w : World Out Ctx) :
  method_returns m -> exists w' a, call_method name m w = (w', Return a).
Proof.
  intros [f [-> Hf]]. unfold call_method.
  destruct (Hf (store w) (real w)) as [c' [s' [a ->]]]. eauto.
Qed.

Lemma call_static_returns {A} (name : string) (m : option (Provider Out A))
      (w : World Out Ctx) :
  static_returns m -> exists w' a, call_static name m w = (w', Return a).
Proof.
  intros [f [-> Hf]]. unfold call_static, call_provider.
  destruct (Hf (real w)) as [s' [a ->]]. eauto.
Qed.

Lemma evaluateProgress_returns (query : jsstring) (w : World Out Ctx) :
  exists w' audit,
    Looper.evaluateProgress Context query w = (w', Return audit).
Proof.
  unfold Looper.evaluateProgress, bind, record.
  match goal with
  | |- context [call_method ?n ?m ?w0] =>
      destruct (call_method_returns n m w0 getTotalWordCount_returns)
        as [w1 [wordCount ->]]
  end.
  destruct (1000 <? wordCount)%Z; [|destruct (500 <? wordCount)%Z];
    unfold ret; eauto.
Qed.

Lemma iteration_returns (query : jsstring) (plan : Plan) (w : World Out Ctx) :
  exists w' next,
    Looper.iteration G Context Coordinator_replan this query plan w =
      (w', Return next).
Proof.
  unfold Looper.iteration, bind.
  destruct (executeSteps_never_throws G this (steps plan) w)
    as [w1 [newIntel ->]].
  match goal with
  | |- context [call_method ?n ?m ?w0] =>
      destruct (call_method_returns n m w0 (ingest_returns newIntel))
        as [w2 [[] ->]]
  end.
  destruct (evaluateProgress_returns query w2) as [w3 [audit ->]].
  destruct (Qgt_bool (satisfaction audit) 0.85); [unfold ret; eauto|].
  match goal with
  | |- context [call_static ?n ?m ?w0] =>
      destruct (call_static_returns
                  n m w0 (replan_returns query (missing_info audit)))
        as [w4 [plan' ->]]
  end.
  unfold ret; eauto.
Qed.

Lemma while_loop_returns (query : jsstring) (maxIter : nat) (fuel : nat) :
  forall (iterations : nat) (plan : Plan) (w : World Out Ctx),
    (maxIter - iterations < fuel)%nat ->
    exists w',
      Looper.while_loop G Context Coordinator_replan this fuel query
                        maxIter iterations plan w = Some (w', Return tt).
Proof.
  induction fuel as [|fuel IH]; intros iterations plan w Hfuel; [lia|].
  simpl.
  destruct (iterations <? maxIter)%nat eqn:Hlt; [|eauto].
  apply Nat.ltb_lt in Hlt.
  destruct (iteration_returns query plan w) as [w1 [[|plan'] ->]]; [eauto|].
  apply IH. lia.
Qed.

(** On such classes [start] returns a synthesis for every query and
    every provider behaviour; exhausting the budget is not an error. *)
Lemma start_returns_a_synthesis (query : jsstring) (options : Fields)
      (fuel : nat) (w : World Out Ctx) :
  (Looper.maxIterations options < fuel)%nat ->
  exists w' result,
    Looper.start date_now G Context Coordinator_replan this fuel query
                 options w = Some (w', Return result).
Proof.
  intros Hfuel. unfold Looper.start, bind.
  rewrite plan_returns.
  match goal with
  | |- context [call_method ?n ?m ?w0] =>
      destruct (call_method_returns n m w0 (logInteraction_returns _ _))
        as [w1 [[] ->]]
  end.
  simpl.
  match goal with
  | |- context [Looper.while_loop _ _ _ _ _ _ _ _ ?p _] =>
      destruct (while_loop_returns query (Looper.maxIterations options) fuel
                                   0%nat p w1 ltac:(lia)) as [w2 ->]
  end.
  unfold Looper.synthesize, bind.
  match goal with
  | |- context [call_method ?n ?m ?w0] =>
      destruct (call_method_returns n m w0 getSourceCount_returns)
        as [w3 [count ->]]
  end.
  match goal with
  | |- context [call_method ?n ?m ?w0] =>
      destruct (call_method_returns n m w0 getSources_returns)
        as [w4 [found ->]]
  end.
  unfold ret; eauto.
Qed.
End Implemented.

(** With a context object that has the methods, the source's
    [Coordinator] still stops the first unsatisfied iteration. *)
Example start_throws_at_replan :
  Looper.start Sample.clock Looper.global_scope Sample.counting_context
               Coordinator.replan Sample.scenarioD 5 (L "why tides") []
               (Sample.world_with 0) =
    Some (mkWorld tt 0%Z [CallEvaluate],
          Throw (TypeError "Coordinator.replan is not a function")).
Proof. reflexivity. Qed.

(** The counting context and a [replan] that repeats the search meet the
    hypotheses above: in scenario D, with every read failing, the deep
    budget is used up and a synthesis is returned. *)
Example start_on_implemented_classes :
  exists w' result,
    Looper.start Sample.clock Sample.globals_with_plan Sample.counting_context
                 Sample.replan_again Sample.scenarioD 5 (L "why tides")
                 Sample.deep (Sample.world_with 0) = Some (w', Return result) /\
    evals w' = 4%nat.
Proof.
  destruct (start_returns_a_synthesis
              Sample.clock Sample.globals_with_plan Sample.counting_context
              Sample.replan_again Sample.scenarioD) with
      (query := L "why tides") (options := Sample.deep) (fuel := 5%nat)
      (w := Sample.world_with 0) as [w' [result Hrun]].
  - intros tag plan. eexists; split; [reflexivity|]. intros c s; eauto.
  - intros newIntel. eexists; split; [reflexivity|]. intros c s; eauto.
  - eexists; split; [reflexivity|]. intros c s; eauto.
  - eexists; split; [reflexivity|]. intros c s; eauto.
  - eexists; split; [reflexivity|]. intros c s; eauto.
  - intros query missing. eexists; split; [reflexivity|]. intros s; eauto.
  - vm_compute; lia.
  - exists w', result. split; [exact Hrun|].
    vm_compute in Hrun. injection Hrun as <- _. reflexivity.
Qed.

(* ================================================================== *)
(** * Further properties of the code *)

(** ** What [executeSteps] does with a plan *)

Section Dispatch.
Context {Out Ctx : Type}.
Variable G : Looper.Scope.
Variable this : Looper.Instance Out.

Lemma try_step_other_tool (step : Step) (results : list Intel)
      (w : World Out Ctx) :
  Measure.is_web_search step = false ->
  Looper.try_step G this step results w = (w, results).
Proof.
  unfold Measure.is_web_search, Looper.try_step, Looper.step_body.
  intros ->. reflexivity.
Qed.

Lemma for_steps_other_tools (steps : list Step) (results : list Intel)
      (w : World Out Ctx) :
  Measure.web_search_steps steps = 0%nat ->
  Looper.for_steps G this steps results w = (w, results).
Proof.
  unfold Measure.web_search_steps.
  induction steps as [|step rest IH]; simpl; [reflexivity|].
  destruct (Measure.is_web_search step) eqn:Htool; simpl; [discriminate|].
  intros Hrest. rewrite try_step_other_tool by assumption. auto.
Qed.
Lemma executeSteps_without_web_search (steps : list Step) (w : World Out Ctx) :
  Measure.web_search_steps steps = 0%nat ->
  Looper.executeSteps G this steps w = (w, Return []).
Proof.
  intros Hnone. unfold Looper.executeSteps.
  rewrite for_steps_other_tools by assumption. reflexivity.
Qed.
End Dispatch.

(** X1: [web_search] is the only tool [executeSteps] knows.  A list of
    steps without a [web_search] step is skipped whole: nothing is
    pushed, no provider is called, nothing is thrown, in every scope. *)
Theorem executeSteps_skips_unknown_tools
        {Out Ctx} (G : Looper.Scope) (this : Looper.Instance Out)
        (steps : list Step) (w : World Out Ctx) :
  Measure.web_search_steps steps = 0%nat ->
  Looper.executeSteps G this steps w = (w, Return []).
Proof.
  intros Hnone. unfold Looper.executeSteps.
  rewrite (for_steps_other_tools G this steps [] w Hnone). reflexivity.
Qed.

Lemma executeSteps_skips_unknown_tools_witness :
  Looper.executeSteps Sample.globals_with_plan Sample.scenarioD
    (Coordinator.generateSteps Coordinator.MEDIA_COMPILATION (L "a movie"))
    Sample.start_world
  = (Sample.start_world, Return []).
Proof.
  apply (executeSteps_skips_unknown_tools
           Sample.globals_with_plan Sample.scenarioD
           (Coordinator.generateSteps Coordinator.MEDIA_COMPILATION (L "a movie"))
           Sample.start_world).
  reflexivity.
Defined.

(** The five categories are the only intents [classifyIntent] returns. *)
Lemma classify_cases (query : jsstring) :
  In (Spec.classify query) Spec.categories.
Proof.
  unfold Spec.classify, Spec.categories, Spec.catch_all, Spec.rules.
  cbn -[includes L toLowerCase existsb].
  repeat match goal with
         | |- context [if ?b then _ else _] => destruct b
         end; simpl; tauto.
Qed.

(** X2: the plan of a query classified as media compilation or offline
    analysis names no tool the loop knows ([scout_videos],
    [analyze_scenes], [compile_video], [local_inference]): executing it
    calls no provider and yields an empty buffer, in every scope. *)
Theorem media_and_offline_plans_are_inert
        {Out Ctx} (date_now : Out -> N) (G : Looper.Scope)
        (this : Looper.Instance Out) (query : jsstring) (w : World Out Ctx) :
  Spec.classify query = Coordinator.MEDIA_COMPILATION \/
  Spec.classify query = Coordinator.OFFLINE_ANALYSIS ->
  exists p,
    Coordinator.plan date_now query w = (w, Return p) /\
    Looper.executeSteps G this (steps p) w = (w, Return []).
Proof.
  intros Hcat. rewrite plan_returns. eexists; split; [reflexivity|].
  simpl. apply executeSteps_without_web_search.
  destruct Hcat as [-> | ->]; reflexivity.
Qed.

Lemma media_and_offline_plans_are_inert_witness :
  exists p,
    Coordinator.plan Sample.clock (L "compile the best scenes")
                     Sample.start_world = (Sample.start_world, Return p) /\
    Looper.executeSteps Sample.globals_with_plan Sample.scenarioD (steps p)
                        Sample.start_world = (Sample.start_world, Return []).
Proof.
  apply (media_and_offline_plans_are_inert
           Sample.clock Sample.globals_with_plan Sample.scenarioD
           (L "compile the best scenes") Sample.start_world).
  left. reflexivity.
Defined.

(** X3: what a plan makes the loop do depends on the query through its
    category only: the one step that carries the query, [scout_videos],
    is not a tool of the loop, and no [web_search] step has a [query]
    parameter.  Two queries of the same category execute alike. *)
Theorem execution_depends_on_category_only
        {Out Ctx} (G : Looper.Scope) (this : Looper.Instance Out)
        (query1 query2 : jsstring) (w : World Out Ctx) :
  Spec.classify query1 = Spec.classify query2 ->
  Looper.executeSteps G this
    (Coordinator.generateSteps (Spec.classify query1) query1) w =
  Looper.executeSteps G this
    (Coordinator.generateSteps (Spec.classify query2) query2) w /\
  forall step,
    In step (Coordinator.generateSteps (Spec.classify query1) query1) ->
    Measure.is_web_search step = true ->
    field "query" (params step) = VUndefined.
Proof.
  intros Hsame. rewrite <- Hsame.
  pose proof (classify_cases query1) as Hin.
  simpl in Hin.
  destruct Hin as [H|[H|[H|[H|[H|[]]]]]]; rewrite <- H; split;
    try reflexivity;
    try (rewrite !executeSteps_without_web_search by reflexivity; reflexivity);
    intros step; simpl;
    intros Hstep; repeat (destruct Hstep as [<-|Hstep]; try discriminate;
                          try reflexivity); try contradiction.
Qed.

Lemma execution_depends_on_category_only_witness :
  Looper.executeSteps Sample.globals_with_plan Sample.scenarioD
    (Coordinator.generateSteps (Spec.classify (L "why is the sky blue"))
                               (L "why is the sky blue"))
    Sample.start_world =
  Looper.executeSteps Sample.globals_with_plan Sample.scenarioD
    (Coordinator.generateSteps (Spec.classify (L "compare tea and coffee"))
                               (L "compare tea and coffee"))
    Sample.start_world.
Proof.
  apply (execution_depends_on_category_only
           Sample.globals_with_plan Sample.scenarioD
           (L "why is the sky blue") (L "compare tea and coffee")
           Sample.start_world).
  reflexivity.
Defined.

(** ** The cost of executing a plan *)

Lemma count_search_app (a b : list Event) :
  Measure.count_search (a ++ b) =
  (Measure.count_search a + Measure.count_search b)%nat.
Proof.
  unfold Measure.count_search. rewrite filter_app, length_app. reflexivity.
Qed.

Lemma count_read_app (a b : list Event) :
  Measure.count_read (a ++ b) =
  (Measure.count_read a + Measure.count_read b)%nat.
Proof.
  unfold Measure.count_read. rewrite filter_app, length_app. reflexivity.
Qed.

Section Cost.
Context {Out Ctx : Type}.
Variable G : Looper.Scope.
Variable this : Looper.Instance Out.

Lemma made_nothing (w : World Out Ctx) : Measure.made w w 0 0.
Proof. unfold Measure.made. lia. Qed.

Lemma made_trans (w1 w2 w3 : World Out Ctx) (s1 r1 s2 r2 : nat) :
  Measure.made w1 w2 s1 r1 -> Measure.made w2 w3 s2 r2 -> Measure.made w1 w3 (s1 + s2) (r1 + r2).
Proof. unfold Measure.made. intros [-> ->] [-> ->]. lia. Qed.

Lemma made_read (w : World Out Ctx) (s' : Out) (u : Reference) :
  Measure.made w (Looper.with_real s' (Looper.logged (CallRead u) w)) 0 1.
Proof.
  unfold Measure.made, Looper.with_real, Looper.logged; simpl.
  rewrite count_search_app, count_read_app.
  unfold Measure.count_search, Measure.count_read; simpl. lia.
Qed.

Lemma made_search (w : World Out Ctx) (s' : Out) (q : Value) (o : Fields) :
  Measure.made w (Looper.with_real s' (Looper.logged (CallSearch q o) w)) 1 0.
Proof.
  unfold Measure.made, Looper.with_real, Looper.logged; simpl.
  rewrite count_search_app, count_read_app.
  unfold Measure.count_search, Measure.count_read; simpl. lia.
Qed.

Lemma deepDive_cost (deepDives : list Reference) :
  forall (results : list Intel) (w : World Out Ctx),
  exists reads,
    Measure.made w (fst (fst (Looper.deepDive this deepDives results w))) 0 reads /\
    (reads <= List.length deepDives)%nat.
Proof.
  induction deepDives as [|u rest IH]; intros results w; simpl.
  - exists 0%nat. split; [apply made_nothing | lia].
  - destruct (Looper.scraper_read this u (real w)) as [s' [content|e]].
    + destruct (IH (results ++ [Content u content])
                   (Looper.with_real s' (Looper.logged (CallRead u) w)))
        as [reads [Hmade Hle]].
      exists (1 + reads)%nat. split; [|lia].
      apply (made_trans _ _ _ 0 1 0 reads (made_read w s' u) Hmade).
    + exists 1%nat. split; [apply made_read | lia].
Qed.

Lemma try_step_cost (step : Step) (results : list Intel) (w : World Out Ctx) :
  exists searches reads,
    Measure.made w (fst (Looper.try_step G this step results w)) searches reads /\
    (searches <= if Measure.is_web_search step then 1 else 0)%nat /\
    (reads <= 2 * searches)%nat.
Proof.
  unfold Looper.try_step, Looper.step_body, Measure.is_web_search.
  destruct (str_eqb (tool step) (L "web_search"));
    [|exists 0%nat, 0%nat; split; [apply made_nothing | lia]].
  cbv iota.
  destruct (Looper.searchOptions_expr G step) as [opts|e];
    [|exists 0%nat, 0%nat; split; [apply made_nothing | lia]].
  destruct (Looper.query_expr G step) as [q|e];
    [|exists 0%nat, 0%nat; split; [apply made_nothing | lia]].
  simpl.
  destruct (Looper.searcher_search this q opts (real w)) as [s' [urls|e]].
  - match goal with
    | |- context [Looper.deepDive ?t ?d ?r ?w0] =>
        destruct (deepDive_cost d r w0) as [reads [Hmade Hle]];
        destruct (Looper.deepDive t d r w0) as [[w' results'] r']
    end.
    assert (Htwo : (reads <= 2)%nat)
      by (destruct urls as [|a [|b l]]; simpl in Hle; lia).
    cbn [fst] in *. exists 1%nat, reads. split; [|split; lia].
    apply (made_trans _ _ _ 1 0 0 reads (made_search w s' q opts) Hmade).
  - exists 1%nat, 0%nat. split; [apply made_search | lia].
Qed.

Lemma for_steps_cost (steps : list Step) :
  forall (results : list Intel) (w : World Out Ctx),
  exists searches reads,
    Measure.made w (fst (Looper.for_steps G this steps results w)) searches reads /\
    (searches <= Measure.web_search_steps steps)%nat /\
    (reads <= 2 * searches)%nat.
Proof.
  unfold Measure.web_search_steps.
  induction steps as [|step rest IH]; intros results w; simpl.
  - exists 0%nat, 0%nat. split; [apply made_nothing | lia].
  - destruct (try_step_cost step results w) as [s1 [r1 [H1 [Hs1 Hr1]]]].
    destruct (Looper.try_step G this step results w) as [w1 results1].
    destruct (IH results1 w1) as [s2 [r2 [H2 [Hs2 Hr2]]]].
    exists (s1 + s2)%nat, (r1 + r2)%nat. simpl in H1.
    split; [exact (made_trans _ _ _ _ _ _ _ H1 H2)|].
    destruct (Measure.is_web_search step); simpl; lia.
Qed.
End Cost.

(** X4: executing a plan calls the search provider at most once per
    [web_search] step and the read provider at most twice per search
    made, whatever the providers return. *)
Theorem executeSteps_cost
        {Out Ctx} (G : Looper.Scope) (this : Looper.Instance Out)
        (steps : list Step) (w : World Out Ctx) :
  exists searches reads,
    Measure.count_search (trace (fst (Looper.executeSteps G this steps w))) =
      (Measure.count_search (trace w) + searches)%nat /\
    Measure.count_read (trace (fst (Looper.executeSteps G this steps w))) =
      (Measure.count_read (trace w) + reads)%nat /\
    (searches <= Measure.web_search_steps steps)%nat /\
    (reads <= 2 * searches)%nat.
Proof.
  destruct (for_steps_cost G this steps [] w) as [s [r [[Hs Hr] [Hle Hrd]]]].
  exists s, r. unfold Looper.executeSteps.
  destruct (Looper.for_steps G this steps [] w) as [w' results].
  simpl in *. auto.
Qed.

(** ** What the buffer of an iteration holds *)

Lemma sourced_from_app (a b : list Intel) :
  forall found,
    Measure.sourced_from found (a ++ b) <->
    Measure.sourced_from found a /\
    Measure.sourced_from (Measure.latest_urls found a) b.
Proof.
  induction a as [|[data|source text] a IH]; intros found; simpl.
  - tauto.
  - apply IH.
  - rewrite IH. tauto.
Qed.

Lemma read_from_sourced (data : list Reference) (entries : list Intel) :
  Measure.read_from data entries -> Measure.sourced_from (Some data) entries.
Proof.
  induction 1 as [|entry entries [source [text [-> Hin]]] _ IH]; simpl; auto.
Qed.

Section Buffer.
Context {Out Ctx : Type}.
Variable G : Looper.Scope.
Variable this : Looper.Instance Out.

Lemma deepDive_pushes (deepDives : list Reference) :
  forall (w : World Out Ctx),
    Forall (fun entry => exists source text,
                entry = Content source text /\ In source deepDives)
           (snd (fst (Looper.deepDive this deepDives [] w))).
Proof.
  induction deepDives as [|u rest IH]; intros w; simpl; [constructor|].
  destruct (Looper.scraper_read this u (real w)) as [s' [content|e]];
    [|constructor].
  rewrite <- (app_nil_r [Content u content]).
  rewrite (deepDive_buffer this rest [Content u content] []).
  specialize (IH (Looper.with_real s' (Looper.logged (CallRead u) w))).
  destruct (Looper.deepDive this rest [] _) as [[w' pushed] r]. simpl in *.
  constructor; [eauto|].
  eapply Forall_impl; [|exact IH].
  intros entry [source [text [-> Hin]]]. eauto.
Qed.

(** A step pushes nothing, or one [urls] entry and then contents read
    from its first two references. *)
Lemma try_step_pushes (step : Step) (w : World Out Ctx) :
  snd (Looper.try_step G this step [] w) = [] \/
  exists data entries,
    snd (Looper.try_step G this step [] w) = Urls data :: entries /\
    Measure.read_from data entries.
Proof.
  unfold Looper.try_step, Looper.step_body.
  destruct (str_eqb (tool step) (L "web_search")); [|left; reflexivity].
  destruct (Looper.searchOptions_expr G step) as [opts|e]; [|left; reflexivity].
  destruct (Looper.query_expr G step) as [q|e]; [|left; reflexivity].
  cbv zeta.
  destruct (Looper.searcher_search this q opts _) as [s' [urls|e]];
    [|left; reflexivity].
  right. exists urls.
  change ([] ++ [Urls urls]) with ([Urls urls] ++ []).
  rewrite (deepDive_buffer this (firstn 2 urls) [Urls urls] []).
  match goal with
  | |- context [Looper.deepDive this ?d [] ?w0] =>
      pose proof (deepDive_pushes d w0) as Hpushed;
      destruct (Looper.deepDive this d [] w0) as [[w' pushed] r]
  end.
  simpl in *. exists pushed. split; [reflexivity | exact Hpushed].
Qed.

Lemma for_steps_sourced (steps : list Step) :
  forall (found : option (list Reference)) (w : World Out Ctx),
    Measure.sourced_from found (snd (Looper.for_steps G this steps [] w)).
Proof.
  induction steps as [|step rest IH]; intros found w; simpl; [exact I|].
  pose proof (try_step_pushes step w) as Hstep.
  destruct (Looper.try_step G this step [] w) as [w1 pushed]. simpl in Hstep.
  rewrite <- (app_nil_r pushed).
  rewrite (for_steps_buffer G this rest pushed [] w1).
  specialize (IH (Measure.latest_urls found pushed) w1).
  destruct (Looper.for_steps G this rest [] w1) as [w2 more]. simpl in *.
  apply sourced_from_app. split; [|exact IH].
  destruct Hstep as [-> | [data [entries [-> Hread]]]]; [exact I|].
  simpl. apply read_from_sourced, Hread.
Qed.
End Buffer.

(** X5: provenance of the buffer.  In the buffer [executeSteps] returns,
    every [content] entry comes after an [urls] entry and was read from
    one of the first two references of the latest one; no content stands
    without the search result it was read from. *)
Theorem executeSteps_buffer_is_sourced
        {Out Ctx} (G : Looper.Scope) (this : Looper.Instance Out)
        (steps : list Step) (w : World Out Ctx) :
  exists w' buffer,
    Looper.executeSteps G this steps w = (w', Return buffer) /\
    Measure.sourced_from None buffer.
Proof.
  unfold Looper.executeSteps.
  pose proof (for_steps_sourced G this steps None w) as Hsourced.
  destruct (Looper.for_steps G this steps [] w) as [w' buffer].
  exists w', buffer. split; [reflexivity | exact Hsourced].
Qed.

Section Reads.
Context {Out Ctx : Type}.
Variable this : Looper.Instance Out.

Lemma deepDive_reads (deepDives : list Reference) :
  forall (results : list Intel) (w : World Out Ctx),
    snd (fst (Looper.deepDive this deepDives results w)) =
    results ++ Measure.read_in_turn this deepDives (real w).
Proof.
  induction deepDives as [|u rest IH]; intros results w; simpl.
  - rewrite app_nil_r. reflexivity.
  - destruct (Looper.scraper_read this u (real w)) as [s' [content|e]].
    + rewrite IH. simpl. rewrite <- app_assoc. reflexivity.
    + simpl. rewrite app_nil_r. reflexivity.
Qed.
End Reads.

(** X6: what one step pushes, in every scope and for every pair of
    providers.  Either the step pushes nothing, and then it has read no
    page; or the search provider returned, and the step pushes its result
    as the [urls] entry followed by the texts the read provider returned
    for the first two references, in their order, up to the first read
    that throws. *)
Theorem try_step_pushes_what_was_read
        {Out Ctx} (G : Looper.Scope) (this : Looper.Instance Out)
        (step : Step) (w : World Out Ctx) :
  (snd (Looper.try_step G this step [] w) = [] /\
   Measure.count_read (trace (fst (Looper.try_step G this step [] w))) =
   Measure.count_read (trace w)) \/
  exists q options s1 urls,
    Looper.searcher_search this q options (real w) = (s1, Return urls) /\
    snd (Looper.try_step G this step [] w) =
      Urls urls :: Measure.read_in_turn this (firstn 2 urls) s1.
Proof.
  unfold Looper.try_step, Looper.step_body.
  destruct (str_eqb (tool step) (L "web_search")); [|left; split; reflexivity].
  destruct (Looper.searchOptions_expr G step) as [opts|e];
    [|left; split; reflexivity].
  destruct (Looper.query_expr G step) as [q|e]; [|left; split; reflexivity].
  cbv zeta.
  change (real (Looper.logged (CallSearch q opts) w)) with (real w).
  destruct (Looper.searcher_search this q opts (real w))
    as [s' [urls|e]] eqn:Hsearch.
  - right. exists q, opts, s', urls. split; [exact Hsearch|].
    match goal with
    | |- context [Looper.deepDive this ?d ?r ?w0] =>
        pose proof (deepDive_reads this d r w0) as Hreads;
        destruct (Looper.deepDive this d r w0) as [[w' pushed] r']
    end.
    simpl in Hreads. simpl. exact Hreads.
  - left. split; [reflexivity|].
    unfold Looper.with_real, Looper.logged; simpl.
    rewrite count_read_app. unfold Measure.count_read at 2; simpl. lia.
Qed.

(** ** The verdict of the evaluator and the frame of the synthesis *)

(** X8: the verdict of [evaluateProgress], for every context object
    handed to it whose [getTotalWordCount()] returns [n].  The audit
    passes the test of the loop, [audit.satisfaction > 0.85], exactly when
    [n] is more than 1000; it carries a missing-info message exactly when
    it does not pass; from 501 to 1000 words it is 0.7 with the request
    for more details. *)
Theorem evaluateProgress_verdict
        {Out Ctx} (Context : Looper.ContextClass Out Ctx) (query : jsstring)
        (w : World Out Ctx) (m : Method Out Ctx Z) (n : Z) (c' : Ctx) (s' : Out) :
  Looper.getTotalWordCount Context = Some m ->
  m (store w) (real w) = (c', s', Return n) ->
  exists audit,
    Looper.evaluateProgress Context query w =
      (mkWorld s' c' (trace w ++ [CallEvaluate]), Return audit) /\
    (Qgt_bool (satisfaction audit) 0.85 = true <-> (1000 < n)%Z) /\
    (missing_info audit = None <-> (1000 < n)%Z) /\
    ((500 < n <= 1000)%Z ->
     audit = mkAudit 0.7 (Some (L "Need more details"))).
Proof.
  intros Hm Hcall.
  unfold Looper.evaluateProgress, bind, record, call_method; simpl.
  rewrite Hm; simpl. rewrite Hcall.
  destruct (1000 <? n)%Z eqn:Hhigh; [|destruct (500 <? n)%Z eqn:Hlow];
    eexists; (split; [reflexivity|]);
    try apply Z.ltb_lt in Hhigh; try apply Z.ltb_ge in Hhigh;
    try apply Z.ltb_lt in Hlow; try apply Z.ltb_ge in Hlow;
    cbn [satisfaction missing_info];
    (split; [|split]);
    try (split; intros Hn; first [reflexivity | lia | discriminate Hn]);
    intros Hn; first [reflexivity | lia].
Qed.

Lemma evaluateProgress_verdict_witness :
  exists audit,
    Looper.evaluateProgress Sample.counting_context (L "tides")
                            (Sample.world_with 700) =
      (mkWorld tt 700%Z ([] ++ [CallEvaluate]), Return audit) /\
    Qgt_bool (satisfaction audit) 0.85 = false /\
    audit = mkAudit 0.7 (Some (L "Need more details")).
Proof.
  destruct (evaluateProgress_verdict
              Sample.counting_context (L "tides") (Sample.world_with 700)
              (fun c s => (c, s, Return c)) 700%Z 700%Z tt
              eq_refl eq_refl) as [audit [Hrun [_ [_ Hmiddle]]]].
  exists audit. split; [exact Hrun|].
  rewrite (Hmiddle ltac:(lia)). split; reflexivity.
Defined.

(** X11: the frame of [synthesize], for every context object handed to
    it whose [getSourceCount()] and [getSources()] return.  [synthesize]
    returns; its sources are the first three of those the context reports,
    never more than three; its two alternatives and its confidence of 0.95
    are fixed; it calls no provider and no evaluator; and the result is
    the same for every query. *)
Theorem synthesize_result_frame
        {Out Ctx} (Context : Looper.ContextClass Out Ctx) (query : jsstring)
        (w : World Out Ctx)
        (counter : Method Out Ctx N) (lister : Method Out Ctx (list Reference))
        (count : N) (found : list Reference) (c1 c2 : Ctx) (s1 s2 : Out) :
  Looper.getSourceCount Context = Some counter ->
  counter (store w) (real w) = (c1, s1, Return count) ->
  Looper.getSources Context = Some lister ->
  lister c1 s1 = (c2, s2, Return found) ->
  exists result,
    Looper.synthesize Context query w =
      (mkWorld s2 c2 (trace w), Return result) /\
    sources result = firstn 3 found /\
    (List.length (sources result) <= 3)%nat /\
    map alt_label (alternatives result) =
      [L "Contrarian Viewpoint"; L "Historical Divergence"] /\
    map alt_source (alternatives result) =
      [L "https://contrarian-blog.com"; L "https://archive.org"] /\
    synthesis_confidence result = 0.95%Q /\
    forall query',
      Looper.synthesize Context query' w =
        (mkWorld s2 c2 (trace w), Return result).
Proof.
  intros Hcounter Hcount Hlister Hfound.
  unfold Looper.synthesize, bind, call_method, ret.
  rewrite Hcounter, Hcount. cbn [store real trace].
  rewrite Hlister, Hfound. cbn [store real trace].
  eexists. split; [reflexivity|]. cbn [sources alternatives synthesis_confidence].
  split; [reflexivity|].
  split; [exact (firstn_le_length 3 found)|].
  repeat split.
Qed.

Lemma synthesize_result_frame_witness :
  exists result,
    Looper.synthesize Sample.rich_context (L "why tides")
                      (Sample.world_with 0) =
      (mkWorld tt 0%Z [], Return result) /\
    sources result = [Sample.ref1; Sample.ref2; Sample.ref1] /\
    synthesis_confidence result = 0.95%Q.
Proof.
  destruct (synthesize_result_frame
              Sample.rich_context (L "why tides") (Sample.world_with 0)
              (fun c s => (c, s, Return 6))
              (fun c s => (c, s, Return [Sample.ref1; Sample.ref2;
                                         Sample.ref1; Sample.ref2]))
              6 [Sample.ref1; Sample.ref2; Sample.ref1; Sample.ref2]
              0%Z 0%Z tt tt eq_refl eq_refl eq_refl eq_refl)
    as [result [Hrun [Hsources [_ [_ [_ [Hconfidence _]]]]]]].
  exists result. split; [exact Hrun|].
  split; [exact Hsources | exact Hconfidence].
Defined.

(** ** Keywords inside a query *)

Lemma startsWith_prefix (needle s : jsstring) :
  startsWith needle s = true <-> exists after, s = needle ++ after.
Proof.
  revert s. induction needle as [|x needle IH]; intros s; simpl.
  - split; [intros _; exists s; reflexivity | reflexivity].
  - destruct s as [|y s].
    + split; [discriminate | intros [after H]; discriminate].
    + rewrite andb_true_iff, N.eqb_eq, IH. split.
      * intros [-> [after ->]]. exists after. reflexivity.
      * intros [after H]. injection H as -> ->. eauto.
Qed.

(** [s.includes(needle)] holds exactly when [needle] occurs in [s]. *)
Lemma includes_occurs (s needle : jsstring) :
  includes s needle = true <->
  exists before after, s = before ++ needle ++ after.
Proof.
  induction s as [|c s IH]; simpl.
  - rewrite orb_false_r, startsWith_prefix. split.
    + intros [after H]. exists [], after. exact H.
    + intros [before [after H]].
      destruct before; [exists after; exact H | discriminate].
  - rewrite orb_true_iff, startsWith_prefix, IH. split.
    + intros [[after H] | [before [after ->]]].
      * exists [], after. exact H.
      * exists (c :: before), after. reflexivity.
    + intros [[|b before] [after H]].
      * left. exists after. exact H.
      * right. injection H as -> ->. eauto.
Qed.

Lemma includes_embedded (s needle before after : jsstring) :
  includes s needle = true ->
  includes (before ++ s ++ after) needle = true.
Proof.
  rewrite !includes_occurs. intros [b [a ->]].
  exists (before ++ b), (a ++ after). rewrite <- !app_assoc. reflexivity.
Qed.

Lemma classify_media (query : jsstring) :
  Spec.classify query = Coordinator.MEDIA_COMPILATION <->
  existsb (includes (toLowerCase query))
          [L "compile"; L "scene"; L "video"; L "movie"] = true.
Proof.
  unfold Spec.classify, Spec.catch_all.
  cbn -[includes L toLowerCase existsb].
  destruct (existsb _ [L "compile"; L "scene"; L "video"; L "movie"]).
  - split; reflexivity.
  - split; [|discriminate].
    repeat match goal with
           | |- context [if ?b then _ else _] => destruct b
           end; intros H; vm_compute in H; discriminate H.
Qed.

(** X12: the media rule comes first and looks for its keywords anywhere:
    a query classified as media compilation stays so whatever text is
    put before and after it, keywords of the other rules included. *)
Theorem media_classification_is_stable
        {Out Ctx} (query before after : jsstring) (w : World Out Ctx) :
  Coordinator.classifyIntent query w
    = (w, Return Coordinator.MEDIA_COMPILATION) ->
  Coordinator.classifyIntent (before ++ query ++ after) w
    = (w, Return Coordinator.MEDIA_COMPILATION).
Proof.
  rewrite !classifyIntent_first_match. intros H.
  injection H as H. f_equal. f_equal.
  apply classify_media in H. apply classify_media.
  apply existsb_exists in H as [kw [Hkw Hinc]].
  apply existsb_exists. exists kw. split; [exact Hkw|].
  unfold toLowerCase in *. rewrite !map_app.
  apply includes_embedded, Hinc.
Qed.

Lemma media_classification_is_stable_witness :
  Coordinator.classifyIntent
    (L "find a patent, " ++ L "MOVIE night" ++ L " offline, nsfw")
    Sample.start_world
  = (Sample.start_world, Return Coordinator.MEDIA_COMPILATION).
Proof.
  apply (media_classification_is_stable
           (L "MOVIE night") (L "find a patent, ") (L " offline, nsfw")
           Sample.start_world).
  reflexivity.
Defined.

(** ** The urls of the bundled search provider *)

Lemma hex_digit_unreserved (n : N) :
  n < 16 -> uri_unreserved (hex_digit n) = true.
Proof.
  intros Hn. unfold hex_digit, uri_unreserved.
  destruct (n <? 10) eqn:Hdigit.
  - apply N.ltb_lt in Hdigit.
    assert (Hlo : (48 <=? 48 + n) = true) by (apply N.leb_le; lia).
    assert (Hhi : (48 + n <=? 57) = true) by (apply N.leb_le; lia).
    rewrite Hlo, Hhi. cbn [andb]. rewrite !orb_true_r. reflexivity.
  - apply N.ltb_ge in Hdigit.
    assert (Hlo : (65 <=? 55 + n) = true) by (apply N.leb_le; lia).
    assert (Hhi : (55 + n <=? 90) = true) by (apply N.leb_le; lia).
    rewrite Hlo, Hhi. reflexivity.
Qed.

Lemma percent_safe (octet : N) :
  octet < 256 -> forallb Measure.url_safe (percent octet) = true.
Proof.
  intros Ho. unfold percent, Measure.url_safe. simpl forallb.
  rewrite (hex_digit_unreserved (octet / 16)),
          (hex_digit_unreserved (octet mod 16)).
  - reflexivity.
  - apply N.mod_lt. lia.
  - apply N.Div0.div_lt_upper_bound. lia.
Qed.

Lemma utf8_octets_bound (cp : N) :
  cp < 1114112 -> Forall (fun octet => octet < 256) (utf8_octets cp).
Proof.
  intros Hcp. unfold utf8_octets.
  assert (H64 : cp mod 64 < 64) by (apply N.mod_lt; lia).
  assert (H64' : (cp / 64) mod 64 < 64) by (apply N.mod_lt; lia).
  assert (H4096 : (cp / 4096) mod 64 < 64) by (apply N.mod_lt; lia).
  destruct (cp <? 128) eqn:H1; [apply N.ltb_lt in H1; repeat constructor; lia|].
  destruct (cp <? 2048) eqn:H2.
  { apply N.ltb_lt in H2.
    assert (cp / 64 < 32) by (apply N.Div0.div_lt_upper_bound; lia).
    repeat constructor; lia. }
  destruct (cp <? 65536) eqn:H3.
  { apply N.ltb_lt in H3.
    assert (cp / 4096 < 16) by (apply N.Div0.div_lt_upper_bound; lia).
    repeat constructor; lia. }
  assert (cp / 262144 < 5) by (apply N.Div0.div_lt_upper_bound; lia).
  repeat constructor; lia.
Qed.

Lemma percent_encode_safe (cp : N) :
  cp < 1114112 -> forallb Measure.url_safe (percent_encode cp) = true.
Proof.
  intros Hcp. unfold percent_encode.
  pose proof (utf8_octets_bound cp Hcp) as Hoctets.
  generalize dependent (utf8_octets cp). intros octets Hoctets.
  induction Hoctets as [|octet octets Ho _ IH]; [reflexivity|].
  cbn [flat_map]. rewrite forallb_app, IH, andb_true_r.
  exact (percent_safe octet Ho).
Qed.

Lemma code_point_bound (hi lo : N) :
  is_surrogate hi = true -> is_low_surrogate hi = false ->
  is_low_surrogate lo = true ->
  code_point hi lo < 1114112.
Proof.
  unfold is_surrogate, is_low_surrogate, code_point.
  intros Hs Hhi Hlo.
  apply andb_true_iff in Hs as [Hs1 Hs2].
  apply andb_true_iff in Hlo as [Hl1 Hl2].
  apply N.leb_le in Hs1, Hs2, Hl1, Hl2.
  apply andb_false_iff in Hhi as [Hhi | Hhi]; apply N.leb_gt in Hhi; lia.
Qed.

Lemma encodeURIComponent_safe (n : nat) :
  forall s enc,
    (List.length s <= n)%nat ->
    Forall (fun c => c < 65536) s ->
    encodeURIComponent s = Return enc ->
    forallb Measure.url_safe enc = true.
Proof.
  induction n as [|n IH]; intros [|c rest] enc Hlen Hunits Henc;
    simpl in Hlen; try lia;
    try (injection Henc as <-; reflexivity).
  inversion Hunits as [|c' rest' Hc Hrest]; subst.
  simpl in Henc.
  destruct (uri_unreserved c) eqn:Hu.
  { destruct (encodeURIComponent rest) as [r|e] eqn:Hr; [|discriminate].
    injection Henc as <-. simpl.
    unfold Measure.url_safe at 1. rewrite Hu. simpl.
    apply (IH rest r); [lia | assumption | assumption]. }
  destruct (is_surrogate c) eqn:Hs; simpl in Henc.
  - destruct (is_low_surrogate c) eqn:Hlow; [discriminate|].
    destruct rest as [|c2 rest2]; [discriminate|].
    destruct (is_low_surrogate c2) eqn:Hlow2; [|discriminate].
    destruct (encodeURIComponent rest2) as [r|e] eqn:Hr; [|discriminate].
    injection Henc as <-.
    rewrite forallb_app.
    rewrite (percent_encode_safe _ (code_point_bound c c2 Hs Hlow Hlow2)).
    inversion Hrest; subst.
    apply (IH rest2 r); [simpl in Hlen; lia | assumption | assumption].
  - destruct (encodeURIComponent rest) as [r|e] eqn:Hr; [|discriminate].
    injection Henc as <-.
    rewrite forallb_app.
    rewrite (percent_encode_safe c ltac:(lia)).
    apply (IH rest r); [lia | assumption | assumption].
Qed.

(** X13: every url [WebSearcher.search] returns is one of its six
    prefixes followed by characters that are safe in a URL component:
    letters, digits, [- _ . ! ~ * ' ( )] and percent escapes; no space,
    [&], [#], [?] or [/] of the query gets through. *)
Theorem search_urls_are_safe (query : jsstring) (options : Fields)
        (refs : list Reference) :
  Forall (fun c => c < 65536) query ->
  WebSearcher.search query options = Return refs ->
  exists enc,
    forallb Measure.url_safe enc = true /\
    map url refs = map (fun prefix => prefix ++ enc) Spec.search_url_prefixes.
Proof.
  intros Hunits. unfold WebSearcher.search.
  destruct (encodeURIComponent query) as [enc|e] eqn:Henc; [|discriminate].
  simpl. intros Hrefs. injection Hrefs as <-.
  exists enc. split; [|reflexivity].
  exact (encodeURIComponent_safe (List.length query) query enc
                                 (Nat.le_refl _) Hunits Henc).
Qed.

Lemma search_urls_are_safe_witness :
  exists refs enc,
    WebSearcher.search (L "tea & coffee?") [] = Return refs /\
    forallb Measure.url_safe enc = true /\
    map url refs = map (fun prefix => prefix ++ enc) Spec.search_url_prefixes.
Proof.
  destruct (WebSearcher.search (L "tea & coffee?") []) as [refs|e] eqn:Hrun;
    [|vm_compute in Hrun; discriminate Hrun].
  destruct (search_urls_are_safe (L "tea & coffee?") [] refs) as [enc Henc].
  - repeat constructor.
  - exact Hrun.
  - exists refs, enc. split; [reflexivity | exact Henc].
Defined.

Lemma encodeURIComponent_unreserved (s : jsstring) :
  forallb uri_unreserved s = true -> encodeURIComponent s = Return s.
Proof.
  induction s as [|c s IH]; simpl; [reflexivity|].
  intros H. apply andb_true_iff in H as [Hc Hs].
  rewrite Hc, (IH Hs). reflexivity.
Qed.

(** X14: a query made of letters, digits and [- _ . ! ~ * ' ( )] only is
    not escaped: each url [search] returns is its prefix followed by the
    query as it is. *)
Theorem search_keeps_plain_queries (query : jsstring) (options : Fields) :
  forallb uri_unreserved query = true ->
  exists refs,
    WebSearcher.search query options = Return refs /\
    map url refs = map (fun prefix => prefix ++ query) Spec.search_url_prefixes.
Proof.
  intros Hplain. unfold WebSearcher.search.
  rewrite (encodeURIComponent_unreserved query Hplain). simpl.
  eexists. split; reflexivity.
Qed.

Lemma search_keeps_plain_queries_witness :
  exists refs,
    WebSearcher.search (L "rocq-9.3_(stable)") [] = Return refs /\
    map url refs = map (fun prefix => prefix ++ L "rocq-9.3_(stable)")
                       Spec.search_url_prefixes.
Proof.
  apply (search_keeps_plain_queries (L "rocq-9.3_(stable)") []).
  reflexivity.
Defined.

(** ** Entities of a text *)

Section Entities.
Import ContextEngine.

Lemma last_app_nonempty {A} (a b : list A) (d : A) :
  b <> [] -> last (a ++ b) d = last b d.
Proof.
  intros Hb. induction a as [|x a IH]; [reflexivity|].
  simpl. destruct (a ++ b) eqn:Hab; [|exact IH].
  apply app_eq_nil in Hab as [_ ->]. contradiction.
Qed.

Lemma lower_run_spec (s : jsstring) :
  forall run after,
    lower_run s = (run, after) ->
    s = run ++ after /\ Forall (fun c => is_lower c = true) run.
Proof.
  induction s as [|c s IH]; simpl; intros run after H.
  - injection H as <- <-. split; [reflexivity | constructor].
  - destruct (is_lower c) eqn:Hc.
    + destruct (lower_run s) as [run' after'].
      injection H as <- <-.
      destruct (IH run' after' eq_refl) as [-> Hrun].
      split; [reflexivity | constructor; assumption].
    + injection H as <- <-. split; [reflexivity | constructor].
Qed.

Lemma lower_last (run : jsstring) (d : N) :
  run <> [] -> Forall (fun c => is_lower c = true) run ->
  is_lower (last run d) = true.
Proof.
  intros Hne Hrun. induction Hrun as [|c run Hc Hrun IH]; [contradiction|].
  destruct run as [|c' run']; [exact Hc|].
  change (last (c :: c' :: run') d) with (last (c' :: run') d).
  apply IH. discriminate.
Qed.

Lemma lower_lettered (run : jsstring) :
  Forall (fun c => is_lower c = true) run -> lettered run.
Proof.
  unfold lettered. apply Forall_impl. intros c ->.
  rewrite orb_true_r. reflexivity.
Qed.

(** A capitalised word: what [[A-Z][a-z]+] matches. *)
Lemma capitalised_spec (s word after : jsstring) :
  capitalised s = Some (word, after) ->
  s = word ++ after /\
  (exists c run, word = c :: run /\ is_upper c = true /\ run <> []) /\
  is_lower (last word 0) = true /\
  lettered word.
Proof.
  unfold capitalised. destruct s as [|c rest]; [discriminate|].
  destruct (is_upper c) eqn:Hc; [|discriminate].
  destruct (lower_run rest) as [run after'] eqn:Hrun.
  destruct run as [|l run]; [discriminate|].
  intros H. injection H as <- <-.
  destruct (lower_run_spec rest _ _ Hrun) as [-> Hlow].
  split; [reflexivity|]. split; [|split].
  - exists c, (l :: run). repeat split; [exact Hc | discriminate].
  - change (last (c :: l :: run) 0) with (last (l :: run) 0).
    apply lower_last; [discriminate | exact Hlow].
  - constructor; [rewrite Hc; reflexivity | apply lower_lettered, Hlow].
Qed.

Lemma group_spec (s g after : jsstring) :
  group s = Some (g, after) ->
  s = g ++ after /\ g <> [] /\ is_lower (last g 0) = true /\ lettered g.
Proof.
  unfold group. destruct s as [|c rest]; [discriminate|].
  destruct (is_space c) eqn:Hc; [|discriminate].
  destruct (capitalised rest) as [[word after']|] eqn:Hword; [|discriminate].
  intros H. injection H as <- <-.
  destruct (capitalised_spec _ _ _ Hword)
    as [-> [[u [run [-> [Hu Hrun]]]] [Hlast Hlet]]].
  split; [reflexivity|]. split; [discriminate|]. split.
  - exact Hlast.
  - constructor; [rewrite Hc, !orb_true_r; reflexivity | exact Hlet].
Qed.

Lemma groups_spec (fuel : nat) :
  forall s more rest,
    groups fuel s = Some (more, rest) ->
    s = more ++ rest /\
    (more = [] \/ is_lower (last more 0) = true) /\
    lettered more.
Proof.
  assert (Hstop : forall s more rest,
             (if boundary_after s then Some ([], s) else None)
             = Some (more, rest) ->
             s = more ++ rest /\
             (more = [] \/ is_lower (last more 0) = true) /\ lettered more).
  { intros s more rest H. destruct (boundary_after s); [|discriminate].
    injection H as <- <-. repeat split; [left; reflexivity | constructor]. }
  induction fuel as [|fuel IH]; intros s more rest; simpl; [apply Hstop|].
  destruct (group s) as [[g after]|] eqn:Hg; [|apply Hstop].
  destruct (groups fuel after) as [[more' rest']|] eqn:Hmore; [|apply Hstop].
  intros H. injection H as <- <-.
  destruct (group_spec _ _ _ Hg) as [-> [Hne [Hlast Hlet]]].
  destruct (IH _ _ _ Hmore) as [-> [Hend Hlet']].
  rewrite <- app_assoc. split; [reflexivity|]. split.
  - right. destruct Hend as [-> | Hend].
    + rewrite app_nil_r. exact Hlast.
    + destruct more' as [|x more']; [rewrite app_nil_r; exact Hlast|].
      rewrite last_app_nonempty by discriminate. exact Hend.
  - apply Forall_app. split; assumption.
Qed.

Lemma match_at_spec (prev : option N) (s m after : jsstring) :
  match_at prev s = Some (m, after) ->
  s = m ++ after /\ entity_shaped m.
Proof.
  unfold match_at.
  destruct (match prev with None => true | Some p => negb (is_word p) end);
    [|discriminate].
  destruct (capitalised s) as [[word after']|] eqn:Hword; [|discriminate].
  destruct (groups _ after') as [[more rest]|] eqn:Hmore; [|discriminate].
  intros H. injection H as <- <-.
  destruct (capitalised_spec _ _ _ Hword)
    as [-> [[u [run [-> [Hu Hrun]]]] [Hlast Hlet]]].
  destruct (groups_spec _ _ _ _ Hmore) as [-> [Hend Hlet']].
  rewrite <- app_assoc. split; [reflexivity|].
  split; [|split].
  - exists u, (run ++ more). split; [reflexivity | exact Hu].
  - destruct Hend as [-> | Hend].
    + rewrite app_nil_r. exact Hlast.
    + destruct more as [|x more]; [rewrite app_nil_r; exact Hlast|].
      rewrite last_app_nonempty by discriminate. exact Hend.
  - apply Forall_app. split; assumption.
Qed.

Lemma scan_spec (fuel : nat) :
  forall prev s,
    (List.length s <= fuel)%nat ->
    Forall entity_shaped (scan fuel prev s) /\
    exists gap gaps,
      List.length gaps = List.length (scan fuel prev s) /\
      s = weave gap (combine (scan fuel prev s) gaps).
Proof.
  induction fuel as [|fuel IH]; intros prev s Hlen.
  - destruct s; [|simpl in Hlen; lia].
    split; [constructor | exists [], []; split; reflexivity].
  - destruct s as [|c rest]; simpl.
    + split; [constructor | exists [], []; split; reflexivity].
    + simpl in Hlen.
      destruct (match_at prev (c :: rest)) as [[m after]|] eqn:Hm.
      * destruct (match_at_spec _ _ _ _ Hm) as [Heq Hshape].
        assert (Hafter : (List.length after <= fuel)%nat).
        { apply (f_equal (@List.length N)) in Heq.
          rewrite length_app in Heq. simpl in Heq.
          destruct Hshape as [[u [r [-> _]]] _]. simpl in Heq. lia. }
        destruct (IH (Some (last m c)) after Hafter)
          as [Hall [gap [gaps [Hgaps Hweave]]]].
        split; [constructor; assumption|].
        exists [], (gap :: gaps). simpl. split; [lia|].
        rewrite Heq. f_equal. exact Hweave.
      * destruct (IH (Some c) rest ltac:(lia))
          as [Hall [gap [gaps [Hgaps Hweave]]]].
        split; [exact Hall|].
        exists (c :: gap), gaps. split; [exact Hgaps|].
        destruct (combine (scan fuel (Some c) rest) gaps) as [|[e g] later];
          simpl in *; rewrite Hweave; reflexivity.
Qed.
End Entities.

(** X15: every entity [extractEntities] returns begins with a capital
    letter, ends with a lower-case letter and holds nothing but ASCII
    letters and white space; in particular none is empty. *)
Theorem extractEntities_are_names (text : jsstring) :
  Forall ContextEngine.entity_shaped (ContextEngine.extractEntities text).
Proof.
  unfold ContextEngine.extractEntities.
  destruct (scan_spec (List.length text) None text (Nat.le_refl _))
    as [Hshaped _].
  exact Hshaped.
Qed.

(** X16: the entities are pieces of the text, in the order they occur
    and without overlap: the text is a gap, then each entity followed by
    a gap. *)
Theorem extractEntities_cut_the_text (text : jsstring) :
  exists gap gaps,
    List.length gaps = List.length (ContextEngine.extractEntities text) /\
    text = ContextEngine.weave gap
             (combine (ContextEngine.extractEntities text) gaps).
Proof.
  unfold ContextEngine.extractEntities.
  destruct (scan_spec (List.length text) None text (Nat.le_refl _))
    as [_ [gap [gaps Hcut]]].
  exists gap, gaps. exact Hcut.
Qed.

(** More fuel than the text is long does not change what [scan] finds:
    the fuel of [extractEntities] is enough. *)
Lemma scan_fuel (fuel : nat) :
  forall extra prev s,
    (List.length s <= fuel)%nat ->
    ContextEngine.scan (fuel + extra) prev s = ContextEngine.scan fuel prev s.
Proof.
  induction fuel as [|fuel IH]; intros extra prev s Hlen.
  - destruct s; [|simpl in Hlen; lia]. destruct extra; reflexivity.
  - destruct s as [|c rest]; [reflexivity|]. simpl in *.
    destruct (ContextEngine.match_at prev (c :: rest)) as [[m after]|] eqn:Hm.
    + destruct (match_at_spec _ _ _ _ Hm) as [Heq [[u [r [-> _]]] _]].
      apply (f_equal (@List.length N)) in Heq.
      rewrite length_app in Heq. simpl in Heq.
      f_equal. apply IH. lia.
    + apply IH. lia.
Qed.

(** X17: a text without a capital letter, the empty text included, has
    no entity. *)
Theorem extractEntities_need_a_capital (text : jsstring) :
  forallb (fun c => negb (ContextEngine.is_upper c)) text = true ->
  ContextEngine.extractEntities text = [].
Proof.
  unfold ContextEngine.extractEntities.
  generalize (@None N) as prev. generalize (List.length text) as fuel.
  intros fuel. revert text.
  induction fuel as [|fuel IH]; intros text prev Hnone; [reflexivity|].
  destruct text as [|c rest]; [reflexivity|].
  simpl in Hnone. apply andb_true_iff in Hnone as [Hc Hrest].
  apply negb_true_iff in Hc.
  simpl. unfold ContextEngine.match_at, ContextEngine.capitalised.
  rewrite Hc.
  destruct (match prev with None => true | Some p => _ end);
    apply IH; exact Hrest.
Qed.

Lemma extractEntities_need_a_capital_witness :
  ContextEngine.extractEntities (L "no capitals here, 2 times none") = [].
Proof.
  apply (extractEntities_need_a_capital
           (L "no capitals here, 2 times none")).
  reflexivity.
Defined.

Lemma groups_fuel (fuel : nat) :
  forall extra s,
    (List.length s <= fuel)%nat ->
    ContextEngine.groups (fuel + extra) s = ContextEngine.groups fuel s.
Proof.
  induction fuel as [|fuel IH]; intros extra s Hlen.
  - destruct s; [|simpl in Hlen; lia]. destruct extra; reflexivity.
  - simpl. destruct (ContextEngine.group s) as [[g after]|] eqn:Hg;
      [|reflexivity].
    destruct (group_spec _ _ _ Hg) as [-> [Hne _]].
    rewrite IH; [reflexivity|].
    rewrite length_app in Hlen. destruct g; [contradiction|].
    simpl in Hlen. lia.
Qed.

(** ** The nodes of the session graph *)

Lemma has_label (lbl : jsstring) (nodes : list ContextGraph.Node) :
  existsb (fun n => str_eqb (ContextGraph.label n) lbl) nodes = true <->
  In lbl (map ContextGraph.label nodes).
Proof.
  rewrite existsb_exists, in_map_iff. split.
  - intros [n [Hin Heq]]. apply str_eqb_eq in Heq. eauto.
  - intros [n [Heq Hin]]. exists n. split; [exact Hin|].
    apply str_eqb_eq. exact Heq.
Qed.

(** What [addNode] does to the labels. *)
Lemma addNode_labels (fresh lbl ty : jsstring) (g : ContextGraph.SessionGraph) :
  (In lbl (ContextEngine.labels g) /\
   ContextGraph.addNode fresh lbl ty g = g) \/
  (~ In lbl (ContextEngine.labels g) /\
   ContextGraph.addNode fresh lbl ty g =
     ContextGraph.mkGraph
       (ContextGraph.nodes g ++ [ContextGraph.mkNode fresh lbl ty])
       (ContextGraph.edges g) (ContextGraph.lastSnapshot g)).
Proof.
  unfold ContextGraph.addNode, ContextEngine.labels.
  destruct (existsb _ (ContextGraph.nodes g)) eqn:Hex.
  - left. split; [apply has_label, Hex | reflexivity].
  - right. split; [|reflexivity].
    intros Hin. apply has_label in Hin. congruence.
Qed.

Lemma addNode_has_label (fresh lbl ty : jsstring) (g : ContextGraph.SessionGraph) :
  In lbl (ContextEngine.labels (ContextGraph.addNode fresh lbl ty g)).
Proof.
  destruct (addNode_labels fresh lbl ty g) as [[Hold ->] | [Hnew ->]];
    [exact Hold|].
  unfold ContextEngine.labels. simpl. rewrite map_app.
  apply in_or_app. right. left. reflexivity.
Qed.

(** X18: [addNode] never gives two nodes the same label: a graph whose
    labels are distinct keeps them distinct. *)
Theorem addNode_keeps_labels_distinct
        (fresh lbl ty : jsstring) (g : ContextGraph.SessionGraph) :
  NoDup (ContextEngine.labels g) ->
  NoDup (ContextEngine.labels (ContextGraph.addNode fresh lbl ty g)).
Proof.
  intros Hdistinct.
  destruct (addNode_labels fresh lbl ty g) as [[_ ->] | [Hnew ->]];
    [exact Hdistinct|].
  unfold ContextEngine.labels in *. simpl. rewrite map_app. simpl.
  apply NoDup_app; [exact Hdistinct | repeat constructor; intros [] |].
  intros l Hl [<- | []]. exact (Hnew Hl).
Qed.

Lemma addNode_keeps_labels_distinct_witness :
  NoDup (ContextEngine.labels
           (ContextGraph.addNode (L "node-2") (L "Paris") (L "entity")
              (ContextGraph.addNode (L "node-1") (L "Paris") (L "entity")
                 ContextGraph.constructor))).
Proof.
  apply (addNode_keeps_labels_distinct (L "node-2") (L "Paris") (L "entity")).
  apply (addNode_keeps_labels_distinct (L "node-1") (L "Paris") (L "entity")).
  constructor.
Defined.

(** X19: [addNode] only appends: the nodes there stay, in place and
    unchanged, at most one node is pushed behind them, the label asked
    for is a label of the graph afterwards, and the edges and the last
    snapshot are not touched. *)
Theorem addNode_appends
        (fresh lbl ty : jsstring) (g : ContextGraph.SessionGraph) :
  exists pushed,
    ContextGraph.nodes (ContextGraph.addNode fresh lbl ty g) =
      ContextGraph.nodes g ++ pushed /\
    (pushed = [] \/ pushed = [ContextGraph.mkNode fresh lbl ty]) /\
    In lbl (ContextEngine.labels (ContextGraph.addNode fresh lbl ty g)) /\
    ContextGraph.edges (ContextGraph.addNode fresh lbl ty g) =
      ContextGraph.edges g /\
    ContextGraph.lastSnapshot (ContextGraph.addNode fresh lbl ty g) =
      ContextGraph.lastSnapshot g.
Proof.
  pose proof (addNode_has_label fresh lbl ty g) as Hin. revert Hin.
  destruct (addNode_labels fresh lbl ty g) as [[Hold ->] | [Hnew ->]];
    intros Hin.
  - exists []. rewrite app_nil_r. auto.
  - exists [ContextGraph.mkNode fresh lbl ty]. simpl. auto.
Qed.

(** X20: the first node of a label wins: adding the label again, with
    whatever identifier and type, changes nothing. *)
Theorem addNode_again_changes_nothing
        (fresh1 fresh2 lbl ty1 ty2 : jsstring) (g : ContextGraph.SessionGraph) :
  ContextGraph.addNode fresh2 lbl ty2 (ContextGraph.addNode fresh1 lbl ty1 g) =
  ContextGraph.addNode fresh1 lbl ty1 g.
Proof.
  pose proof (addNode_has_label fresh1 lbl ty1 g) as Hin.
  destruct (addNode_labels fresh2 lbl ty2
              (ContextGraph.addNode fresh1 lbl ty1 g)) as [[_ H] | [Hnew _]].
  - exact H.
  - contradiction.
Qed.

(** ** Processing a snapshot *)

Section Snapshots.
Variable fresh : nat -> jsstring.

Lemma addNodes_cons (name : jsstring) (names : list jsstring) (ty : jsstring)
      (g : ContextGraph.SessionGraph) :
  ContextEngine.addNodes fresh (name :: names) ty g =
  ContextEngine.addNodes fresh names ty
    (ContextGraph.addNode (fresh (List.length (ContextGraph.nodes g))) name ty g).
Proof. reflexivity. Qed.

(** What a [forEach] of [addNode] pushes. *)
Lemma addNodes_pushes (names : list jsstring) (ty : jsstring) :
  forall g : ContextGraph.SessionGraph,
  exists pushed,
    ContextGraph.nodes (ContextEngine.addNodes fresh names ty g) =
      ContextGraph.nodes g ++ pushed /\
    Forall (fun n => ContextGraph.node_type n = ty /\
                     In (ContextGraph.label n) names) pushed /\
    ContextGraph.edges (ContextEngine.addNodes fresh names ty g) =
      ContextGraph.edges g.
Proof.
  induction names as [|name names IH]; intros g.
  - exists []. rewrite app_nil_r.
    split; [reflexivity|]. split; [constructor | reflexivity].
  - rewrite addNodes_cons.
    destruct (IH (ContextGraph.addNode
                    (fresh (List.length (ContextGraph.nodes g))) name ty g))
      as [pushed [Hnodes [Hall Hedges]]].
    assert (Hall' : Forall (fun n => ContextGraph.node_type n = ty /\
                                     In (ContextGraph.label n) (name :: names))
                           pushed).
    { eapply Forall_impl; [|exact Hall]. intros n [Hty Hl].
      split; [exact Hty | right; exact Hl]. }
    rewrite Hnodes, Hedges.
    destruct (addNode_labels
                (fresh (List.length (ContextGraph.nodes g))) name ty g)
      as [[_ ->] | [_ ->]].
    + exists pushed. split; [reflexivity|]. split; [exact Hall' | reflexivity].
    + exists (ContextGraph.mkNode
                (fresh (List.length (ContextGraph.nodes g))) name ty :: pushed).
      simpl. rewrite <- app_assoc. simpl.
      split; [reflexivity|]. split; [|reflexivity].
      constructor; [|exact Hall'].
      split; [reflexivity | left; reflexivity].
Qed.

Lemma addNodes_keep_labels (names : list jsstring) (ty : jsstring)
      (g : ContextGraph.SessionGraph) (l : jsstring) :
  In l (ContextEngine.labels g) ->
  In l (ContextEngine.labels (ContextEngine.addNodes fresh names ty g)).
Proof.
  destruct (addNodes_pushes names ty g) as [pushed [Hnodes _]].
  unfold ContextEngine.labels. rewrite Hnodes, map_app.
  intros Hl. apply in_or_app. left. exact Hl.
Qed.

Lemma addNodes_have_labels (names : list jsstring) (ty : jsstring) :
  forall (g : ContextGraph.SessionGraph) (l : jsstring),
    In l names ->
    In l (ContextEngine.labels (ContextEngine.addNodes fresh names ty g)).
Proof.
  induction names as [|name names IH]; intros g l Hl; [destruct Hl|].
  rewrite addNodes_cons. destruct Hl as [<- | Hl].
  - apply addNodes_keep_labels, addNode_has_label.
  - apply IH, Hl.
Qed.

Lemma addNode_distinct (id lbl ty : jsstring) (g : ContextGraph.SessionGraph) :
  NoDup (ContextEngine.labels g) ->
  NoDup (ContextEngine.labels (ContextGraph.addNode id lbl ty g)).
Proof.
  intros Hdistinct.
  destruct (addNode_labels id lbl ty g) as [[_ ->] | [Hnew ->]];
    [exact Hdistinct|].
  unfold ContextEngine.labels in *. simpl. rewrite map_app. simpl.
  apply NoDup_app; [exact Hdistinct | repeat constructor; intros [] |].
  intros l Hl [<- | []]. exact (Hnew Hl).
Qed.

Lemma addNodes_distinct (names : list jsstring) (ty : jsstring) :
  forall g : ContextGraph.SessionGraph,
    NoDup (ContextEngine.labels g) ->
    NoDup (ContextEngine.labels (ContextEngine.addNodes fresh names ty g)).
Proof.
  induction names as [|name names IH]; intros g Hdistinct; [exact Hdistinct|].
  rewrite addNodes_cons. apply IH, addNode_distinct, Hdistinct.
Qed.

(** Labels that are all there already are all passed over. *)
Lemma addNodes_known (names : list jsstring) (ty : jsstring) :
  forall g : ContextGraph.SessionGraph,
    (forall l, In l names -> In l (ContextEngine.labels g)) ->
    ContextEngine.addNodes fresh names ty g = g.
Proof.
  induction names as [|name names IH]; intros g Hknown; [reflexivity|].
  rewrite addNodes_cons.
  destruct (addNode_labels
              (fresh (List.length (ContextGraph.nodes g))) name ty g)
    as [[_ ->] | [Hnew _]].
  - apply IH. intros l Hl. apply Hknown. right. exact Hl.
  - exfalso. apply Hnew, Hknown. left. reflexivity.
Qed.

Lemma processSnapshot_runs (fields : Fields) (text : jsstring)
      (g : ContextGraph.SessionGraph) :
  field "visible_intel" fields = VStr text ->
  ContextEngine.processSnapshot fresh (VObj fields) g =
    Return
      (ContextGraph.mkGraph
         (ContextGraph.nodes
            (ContextEngine.addNodes fresh (ContextEngine.extractEntities text)
                                    (L "entity") g))
         (ContextGraph.edges
            (ContextEngine.addNodes fresh (ContextEngine.extractEntities text)
                                    (L "entity") g))
         (VObj fields)).
Proof.
  intros Hintel. unfold ContextEngine.processSnapshot. simpl.
  rewrite Hintel. reflexivity.
Qed.

Lemma processSnapshot_returns_on (snapshot : Value)
      (g g' : ContextGraph.SessionGraph) :
  ContextEngine.processSnapshot fresh snapshot g = Return g' ->
  exists fields text,
    snapshot = VObj fields /\ field "visible_intel" fields = VStr text.
Proof.
  unfold ContextEngine.processSnapshot.
  destruct snapshot as [| | b | q | s | items | fields]; simpl;
    try discriminate.
  destruct (field "visible_intel" fields) as [| | b | q | text | items | fs]
    eqn:Hintel; simpl; try discriminate.
  intros _. exists fields, text. split; [reflexivity | exact Hintel].
Qed.
End Snapshots.

(** X21: [processSnapshot] returns exactly on the snapshots that are
    objects whose [visible_intel] is a string; on every other value it
    throws a TypeError and no graph comes back. *)
Theorem processSnapshot_needs_text
        (fresh : nat -> jsstring) (snapshot : Value)
        (g : ContextGraph.SessionGraph) :
  match ContextEngine.processSnapshot fresh snapshot g with
  | Return g' =>
      exists fields text,
        snapshot = VObj fields /\ field "visible_intel" fields = VStr text
  | Throw e =>
      err_name e = "TypeError"%string /\
      forall fields text,
        snapshot = VObj fields -> field "visible_intel" fields <> VStr text
  end.
Proof.
  unfold ContextEngine.processSnapshot.
  destruct snapshot as [| | b | q | s | items | fields]; simpl;
    try (split; [reflexivity | intros fields text H; discriminate H]).
  destruct (field "visible_intel" fields) as [| | b | q | text | items | fs]
    eqn:Hintel; simpl;
    try (split; [reflexivity |
                 intros fields' text' H; injection H as <-;
                 rewrite Hintel; discriminate]).
  exists fields, text. split; [reflexivity | exact Hintel].
Qed.

(** X22: a processed snapshot only adds to the graph.  The nodes there
    stay in place; the nodes pushed are of type ['entity'] and labelled
    with entities of the snapshot's text; every entity of the text is a
    label afterwards; distinct labels stay distinct; the edges are kept
    and the snapshot becomes the last snapshot. *)
Theorem processSnapshot_adds_entities
        (fresh : nat -> jsstring) (fields : Fields) (text : jsstring)
        (g : ContextGraph.SessionGraph) :
  field "visible_intel" fields = VStr text ->
  exists g' pushed,
    ContextEngine.processSnapshot fresh (VObj fields) g = Return g' /\
    ContextGraph.nodes g' = ContextGraph.nodes g ++ pushed /\
    Forall (fun n => ContextGraph.node_type n = L "entity" /\
                     In (ContextGraph.label n)
                        (ContextEngine.extractEntities text)) pushed /\
    (forall e, In e (ContextEngine.extractEntities text) ->
               In e (ContextEngine.labels g')) /\
    (NoDup (ContextEngine.labels g) -> NoDup (ContextEngine.labels g')) /\
    ContextGraph.edges g' = ContextGraph.edges g /\
    ContextGraph.lastSnapshot g' = VObj fields.
Proof.
  intros Hintel.
  rewrite (processSnapshot_runs fresh fields text g Hintel).
  destruct (addNodes_pushes fresh (ContextEngine.extractEntities text)
                            (L "entity") g)
    as [pushed [Hnodes [Hall Hedges]]].
  eexists. exists pushed. split; [reflexivity|].
  unfold ContextEngine.labels. simpl.
  split; [exact Hnodes|]. split; [exact Hall|]. split; [|split].
  - intros e He. exact (addNodes_have_labels fresh _ _ g e He).
  - apply addNodes_distinct.
  - split; [exact Hedges | reflexivity].
Qed.

Lemma processSnapshot_adds_entities_witness :
  exists g' pushed,
    ContextEngine.processSnapshot
      (fun i => L "node-" ++ decimal (N.of_nat i))
      (VObj [("visible_intel", VStr (L "From Paris to New York, then Paris"))]%string)
      ContextGraph.constructor = Return g' /\
    ContextGraph.nodes g' = ContextGraph.nodes ContextGraph.constructor ++ pushed /\
    NoDup (ContextEngine.labels g').
Proof.
  destruct (processSnapshot_adds_entities
              (fun i => L "node-" ++ decimal (N.of_nat i))
              [("visible_intel", VStr (L "From Paris to New York, then Paris"))]%string
              (L "From Paris to New York, then Paris")
              ContextGraph.constructor eq_refl)
    as [g' [pushed [Hrun [Hnodes [_ [_ [Hdistinct _]]]]]]].
  exists g', pushed. split; [exact Hrun|]. split; [exact Hnodes|].
  apply Hdistinct. constructor.
Defined.

(** X23: processing the same snapshot once more, under whatever
    identifiers, adds no node: every entity is found by its label. *)
Theorem processSnapshot_twice
        (fresh1 fresh2 : nat -> jsstring) (snapshot : Value)
        (g g1 : ContextGraph.SessionGraph) :
  ContextEngine.processSnapshot fresh1 snapshot g = Return g1 ->
  ContextEngine.processSnapshot fresh2 snapshot g1 = Return g1.
Proof.
  intros Hfirst.
  destruct (processSnapshot_returns_on fresh1 snapshot g g1 Hfirst)
    as [fields [text [-> Hintel]]].
  rewrite (processSnapshot_runs fresh1 fields text g Hintel) in Hfirst.
  injection Hfirst as <-.
  rewrite (processSnapshot_runs fresh2 fields text _ Hintel).
  rewrite addNodes_known; [reflexivity|].
  intros l Hl. unfold ContextEngine.labels. simpl.
  exact (addNodes_have_labels fresh1 _ _ g l Hl).
Qed.

Lemma processSnapshot_twice_witness :
  exists g1,
    ContextEngine.processSnapshot
      (fun i => L "node-" ++ decimal (N.of_nat i))
      (VObj [("visible_intel", VStr (L "Rome and Paris"))]%string)
      ContextGraph.constructor = Return g1 /\
    ContextEngine.processSnapshot
      (fun i => L "other-" ++ decimal (N.of_nat i))
      (VObj [("visible_intel", VStr (L "Rome and Paris"))]%string)
      g1 = Return g1.
Proof.
  destruct (ContextEngine.processSnapshot
              (fun i => L "node-" ++ decimal (N.of_nat i))
              (VObj [("visible_intel", VStr (L "Rome and Paris"))]%string)
              ContextGraph.constructor) as [g1|e] eqn:Hrun;
    [|vm_compute in Hrun; discriminate Hrun].
  exists g1. split; [reflexivity|].
  exact (processSnapshot_twice _ _ _ _ g1 Hrun).
Defined.

(** ** Taking a snapshot *)

Lemma createSnapshot_returns_on (now1 now2 : N) (sensorData snapshot : Value) :
  ContextEngine.createSnapshot now1 now2 sensorData = Return snapshot ->
  exists fields text structure elements,
    sensorData = VObj fields /\
    field "viewport_text" fields = VStr text /\
    field "structure" fields = structure /\
    get_prop structure "elements" = Return elements /\
    snapshot =
      VObj [ ("id"%string, VStr (L "snapshot-" ++ decimal now1));
             ("visible_intel"%string, VStr (firstn 500 text));
             ("structural_anchors"%string, elements);
             ("interaction_pulse"%string, field "interactions" fields);
             ("media_state"%string, field "media" fields);
             ("timestamp"%string, VNum (inject_Z (Z.of_N now2)));
             ("ttl"%string, VNum 300000) ].
Proof.
  unfold ContextEngine.createSnapshot.
  destruct sensorData as [| | b | q | s | items | fields]; simpl;
    try discriminate.
  destruct (field "viewport_text" fields) as [| | b | q | text | items | fs]
    eqn:Htext; simpl; try discriminate.
  destruct (get_prop (field "structure" fields) "elements") as [elements|e]
    eqn:Helements; simpl; [|discriminate].
  intros H. injection H as <-.
  exists fields, text, (field "structure" fields), elements.
  repeat split; assumption.
Qed.

(** X24: a snapshot that [createSnapshot] returns keeps at most the
    first 500 code units of the viewport text, and [processSnapshot]
    accepts it: it never throws on it, and the entities of those 500
    units, and only of them, are labels of the graph afterwards. *)
Theorem createSnapshot_feeds_processSnapshot
        (now1 now2 : N) (sensorData snapshot : Value)
        (fresh : nat -> jsstring) (g : ContextGraph.SessionGraph) :
  ContextEngine.createSnapshot now1 now2 sensorData = Return snapshot ->
  exists text g',
    get_prop sensorData "viewport_text" = Return (VStr text) /\
    get_prop snapshot "visible_intel" = Return (VStr (firstn 500 text)) /\
    (List.length (firstn 500 text) <= 500)%nat /\
    ContextEngine.processSnapshot fresh snapshot g = Return g' /\
    (forall l, In l (ContextEngine.labels g') <->
               In l (ContextEngine.labels g) \/
               In l (ContextEngine.extractEntities (firstn 500 text))) /\
    ContextGraph.lastSnapshot g' = snapshot.
Proof.
  intros Hsnap.
  destruct (createSnapshot_returns_on _ _ _ _ Hsnap)
    as [fields [text [structure [elements [-> [Htext [_ [_ ->]]]]]]]].
  match goal with
  | |- context [ContextEngine.processSnapshot fresh (VObj ?fs) g] =>
      pose proof (processSnapshot_runs fresh fs (firstn 500 text) g eq_refl)
        as Hrun
  end.
  exists text. eexists. cbn [get_prop]. rewrite Htext.
  split; [reflexivity|]. split; [reflexivity|].
  split; [apply firstn_le_length|].
  split; [exact Hrun|]. split; [|reflexivity].
  intros l. unfold ContextEngine.labels at 1. cbn [ContextGraph.nodes].
  destruct (addNodes_pushes fresh
              (ContextEngine.extractEntities (firstn 500 text)) (L "entity") g)
    as [pushed [Hnodes [Hall _]]].
  split.
  - rewrite Hnodes, map_app. intros Hl.
    apply in_app_or in Hl as [Hl | Hl]; [left; exact Hl | right].
    apply in_map_iff in Hl as [n [<- Hn]].
    rewrite Forall_forall in Hall. apply (Hall n Hn).
  - intros [Hl | Hl].
    + exact (addNodes_keep_labels fresh _ _ g l Hl).
    + exact (addNodes_have_labels fresh _ _ g l Hl).
Qed.

Lemma createSnapshot_feeds_processSnapshot_witness :
  exists snapshot text g',
    ContextEngine.createSnapshot 1700000000000 1700000000001
      (VObj [("viewport_text", VStr (L "Lisbon is west of Madrid"));
             ("structure", VObj [("elements", VArr [])])]%string)
      = Return snapshot /\
    get_prop snapshot "visible_intel" = Return (VStr (firstn 500 text)) /\
    ContextEngine.processSnapshot (fun i => decimal (N.of_nat i)) snapshot
                                  ContextGraph.constructor = Return g' /\
    ContextGraph.lastSnapshot g' = snapshot.
Proof.
  destruct (ContextEngine.createSnapshot 1700000000000 1700000000001
              (VObj [("viewport_text", VStr (L "Lisbon is west of Madrid"));
                     ("structure", VObj [("elements", VArr [])])]%string))
    as [snapshot|e] eqn:Hsnap; [|vm_compute in Hsnap; discriminate Hsnap].
  destruct (createSnapshot_feeds_processSnapshot
              _ _ _ snapshot (fun i => decimal (N.of_nat i))
              ContextGraph.constructor Hsnap)
    as [text [g' [_ [Hintel [_ [Hrun [_ Hlast]]]]]]].
  exists snapshot, text, g'. auto.
Defined.

(** X25: [createSnapshot] returns exactly when the sensor data is an
    object whose [viewport_text] is a string and whose [structure] is
    neither undefined nor null; otherwise it throws a TypeError.  A
    missing [interactions] or [media] is passed on as undefined. *)
Theorem createSnapshot_needs_text_and_structure
        (now1 now2 : N) (sensorData : Value) :
  match ContextEngine.createSnapshot now1 now2 sensorData with
  | Return snapshot =>
      exists fields text,
        sensorData = VObj fields /\
        field "viewport_text" fields = VStr text /\
        field "structure" fields <> VUndefined /\
        field "structure" fields <> VNull /\
        get_prop snapshot "interaction_pulse"
          = Return (field "interactions" fields) /\
        get_prop snapshot "media_state" = Return (field "media" fields)
  | Throw e =>
      err_name e = "TypeError"%string /\
      forall fields text,
        sensorData = VObj fields ->
        field "viewport_text" fields = VStr text ->
        field "structure" fields = VUndefined \/
        field "structure" fields = VNull
  end.
Proof.
  unfold ContextEngine.createSnapshot.
  destruct sensorData as [| | b | q | s | items | fields]; simpl;
    try (split; [reflexivity | intros fields text H; discriminate H]).
  destruct (field "viewport_text" fields) as [| | b | q | text | items | fs]
    eqn:Htext; simpl;
    try (split; [reflexivity |
                 intros fields' text' H; injection H as <-;
                 rewrite Htext; discriminate]).
  destruct (field "structure" fields) as [| | b | q | s | items | fs]
    eqn:Hstructure; simpl;
    try (exists fields, text; rewrite Hstructure;
         repeat split; try discriminate; assumption);
    (split; [reflexivity |
             intros fields' text' H _; injection H as <-;
             rewrite Hstructure; auto]).
Qed.

(** ** Keywords and suggestions of the navigator *)

Section Words.
Import Navigator.

Lemma split_space_spaceless (s : jsstring) :
  Forall spaceless (split_space s).
Proof.
  unfold spaceless.
  induction s as [|c s IH]; simpl; [repeat constructor; intros []|].
  destruct (c =? 32) eqn:Hc.
  - constructor; [intros [] | exact IH].
  - apply N.eqb_neq in Hc.
    destruct (split_space s) as [|piece pieces].
    + repeat constructor. intros [H | []]. congruence.
    + inversion IH as [|p ps Hpiece Hpieces]; subst.
      constructor; [|exact Hpieces].
      intros [H | H]; [congruence | exact (Hpiece H)].
Qed.

Lemma split_space_nonempty (s : jsstring) : split_space s <> [].
Proof.
  destruct s as [|c s]; simpl; [discriminate|].
  destruct (c =? 32); [discriminate|].
  destruct (split_space s); discriminate.
Qed.

(** Joining what was split gives the string back. *)
Lemma join_split (s : jsstring) : join_space (split_space s) = s.
Proof.
  induction s as [|c s IH]; [reflexivity|].
  simpl. destruct (c =? 32) eqn:Hc.
  - apply N.eqb_eq in Hc. subst c.
    pose proof (split_space_nonempty s) as Hne.
    destruct (split_space s) as [|piece pieces]; [contradiction|].
    change (join_space ([] :: piece :: pieces))
      with (32 :: join_space (piece :: pieces)).
    rewrite IH. reflexivity.
  - pose proof (split_space_nonempty s) as Hne.
    destruct (split_space s) as [|piece pieces]; [contradiction|].
    rewrite <- IH. destruct pieces; reflexivity.
Qed.

(** A string without the separator that starts inside [x] ends inside
    [x]. *)
Lemma prefix_before_separator (n a x y : jsstring) (sep : N) :
  n ++ a = x ++ sep :: y -> ~ In sep n -> exists a', x = n ++ a'.
Proof.
  revert x. induction n as [|c n IH]; intros x Heq Hfree.
  - exists x. reflexivity.
  - destruct x as [|d x]; simpl in Heq.
    + injection Heq as -> _. exfalso. apply Hfree. left. reflexivity.
    + injection Heq as -> Heq.
      destruct (IH x Heq) as [a' ->].
      * intros H. apply Hfree. right. exact H.
      * exists a'. reflexivity.
Qed.

Lemma occurrence_beside_separator (x y b n a : jsstring) (sep : N) :
  x ++ sep :: y = b ++ n ++ a -> ~ In sep n ->
  (exists a', x = b ++ n ++ a') \/ (exists b', y = b' ++ n ++ a).
Proof.
  revert b. induction x as [|c x IH]; intros b Heq Hfree.
  - destruct b as [|d b]; simpl in Heq.
    + left. destruct n as [|d n]; [exists []; reflexivity|].
      injection Heq as -> _. exfalso. apply Hfree. left. reflexivity.
    + right. injection Heq as _ ->. exists b. reflexivity.
  - destruct b as [|d b]; simpl in Heq.
    + left. symmetry in Heq.
      destruct (prefix_before_separator n a (c :: x) y sep Heq Hfree)
        as [a' Hx].
      exists a'. exact Hx.
    + injection Heq as <- Heq.
      destruct (IH b Heq Hfree) as [[a' ->] | Hright].
      * left. exists a'. reflexivity.
      * right. exact Hright.
Qed.

(** A needle without a space occurs in the joined keywords exactly when
    it occurs in one of them. *)
Lemma includes_join (words : list jsstring) (needle : jsstring) :
  spaceless needle -> needle <> [] ->
  (includes (join_space words) needle = true <->
   exists w, In w words /\ includes w needle = true).
Proof.
  intros Hfree Hne. split.
  - induction words as [|w words IH]; intros Hinc.
    + apply includes_occurs in Hinc as [b [a H]].
      destruct b; [destruct needle; [contradiction | discriminate]
                  | discriminate].
    + destruct words as [|w2 words].
      * exists w. split; [left; reflexivity | exact Hinc].
      * change (join_space (w :: w2 :: words))
          with (w ++ 32 :: join_space (w2 :: words)) in Hinc.
        apply includes_occurs in Hinc as [b [a H]].
        destruct (occurrence_beside_separator _ _ _ _ _ _ H Hfree)
          as [[a' ->] | [b' Hy]].
        -- exists (b ++ needle ++ a'). split; [left; reflexivity|].
           apply includes_occurs. eauto.
        -- destruct IH as [w' [Hin Hw']].
           { apply includes_occurs. eauto. }
           exists w'. split; [right; exact Hin | exact Hw'].
  - intros [w [Hin Hinc]].
    induction words as [|w1 words IH]; [destruct Hin|].
    destruct words as [|w2 words].
    + destruct Hin as [<- | []]. exact Hinc.
    + change (join_space (w1 :: w2 :: words))
        with (w1 ++ 32 :: join_space (w2 :: words)).
      destruct Hin as [<- | Hin].
      * apply (includes_embedded w1 needle [] (32 :: join_space (w2 :: words))).
        exact Hinc.
      * specialize (IH Hin).
        change (w1 ++ 32 :: join_space (w2 :: words))
          with (w1 ++ [32] ++ join_space (w2 :: words)).
        rewrite app_assoc.
        rewrite <- (app_nil_r (join_space (w2 :: words))).
        apply (includes_embedded _ needle (w1 ++ [32]) []). exact IH.
Qed.
End Words.

(** X26: what [extractKeywords] returns are words: each is longer than
    two code units and holds no space; a falsy text (undefined, null,
    the empty string) gives no keyword; a truthy value that is not a
    string makes it throw a TypeError. *)
Theorem extractKeywords_are_words (lower : jsstring -> jsstring) (text : Value) :
  match Navigator.extractKeywords lower text with
  | Return keywords =>
      Forall (fun w => (2 < List.length w)%nat /\ Navigator.spaceless w)
             keywords /\
      (truthy text = false -> keywords = []) /\
      (truthy text = true -> exists s, text = VStr s)
  | Throw e =>
      err_name e = "TypeError"%string /\
      truthy text = true /\ forall s, text <> VStr s
  end.
Proof.
  unfold Navigator.extractKeywords.
  destruct (truthy text) eqn:Htruthy; simpl.
  - destruct text as [| | b | q | s | items | fields];
      try (repeat split; try reflexivity; intros s' H; discriminate H).
    split; [|split; [discriminate | intros _; exists s; reflexivity]].
    apply Forall_forall. intros w Hw.
    apply filter_In in Hw as [Hin Hlong]. apply Nat.ltb_lt in Hlong.
    split; [exact Hlong|].
    pose proof (split_space_spaceless (lower s)) as Hfree.
    rewrite Forall_forall in Hfree. exact (Hfree w Hin).
  - split; [constructor|]. split; [reflexivity | discriminate].
Qed.

Lemma filter_all {A} (f : A -> bool) (l : list A) :
  Forall (fun x => f x = true) l -> filter f l = l.
Proof.
  induction 1 as [|x l Hx _ IH]; simpl; [reflexivity|].
  rewrite Hx, IH. reflexivity.
Qed.

(** X27: when every word of the lower-cased text is longer than two code
    units, the keywords joined again, which is the string
    [heuristicSuggestions] searches, are the lower-cased text itself. *)
Theorem keywords_rejoin (lower : jsstring -> jsstring) (s : jsstring) :
  s <> [] ->
  Forall (fun w => (2 < List.length w)%nat) (Navigator.split_space (lower s)) ->
  exists keywords,
    Navigator.extractKeywords lower (VStr s) = Return keywords /\
    Navigator.join_space keywords = lower s.
Proof.
  intros Hs Hlong. unfold Navigator.extractKeywords.
  destruct s as [|c s]; [contradiction|]. simpl.
  eexists. split; [reflexivity|].
  rewrite filter_all; [apply join_split|].
  eapply Forall_impl; [|exact Hlong].
  intros w Hw. apply Nat.ltb_lt. exact Hw.
Qed.

Lemma keywords_rejoin_witness :
  exists keywords,
    Navigator.extractKeywords toLowerCase (VStr (L "Prior Art Search"))
      = Return keywords /\
    Navigator.join_space keywords = toLowerCase (L "Prior Art Search").
Proof.
  apply (keywords_rejoin toLowerCase (L "Prior Art Search")).
  - discriminate.
  - repeat constructor.
Defined.

Lemma spaceless_literal (s : jsstring) :
  forallb (fun c => negb (c =? 32)) s = true -> Navigator.spaceless s.
Proof.
  unfold Navigator.spaceless. intros Hall Hin.
  rewrite forallb_forall in Hall. specialize (Hall 32 Hin).
  discriminate Hall.
Qed.

(** X28: [suggest] answers a non-empty query with the patent bubbles
    exactly when one of its words -- a piece between spaces of the
    lower-cased query, longer than two code units -- contains [patent] or
    [legal]; a keyword cut by a space, or sitting in a shorter word, does
    not count. *)
Theorem suggest_patent_bubbles
        (lower : jsstring -> jsstring) (s : jsstring) (context : Fields) :
  s <> [] ->
  (exists confidence,
      Navigator.suggest lower (VStr s) context
      = Return (Navigator.patent_bubbles, confidence)) <->
  (exists w,
      In w (Navigator.split_space (lower s)) /\
      (2 < List.length w)%nat /\
      (includes w (L "patent") = true \/ includes w (L "legal") = true)).
Proof.
  intros Hs. unfold Navigator.suggest, Navigator.extractKeywords.
  destruct s as [|c s]; [contradiction|]. cbn [truthy negb rbind].
  set (keywords := filter (fun w => (2 <? List.length w)%nat)
                          (Navigator.split_space (lower (c :: s)))).
  assert (Hwords : forall needle,
             Navigator.spaceless needle -> needle <> [] ->
             (includes (Navigator.join_space keywords) needle = true <->
              exists w, In w (Navigator.split_space (lower (c :: s))) /\
                        (2 < List.length w)%nat /\
                        includes w needle = true)).
  { intros needle Hfree Hne. rewrite (includes_join keywords needle Hfree Hne).
    split; intros [w [Hin Hinc]]; exists w.
    - apply filter_In in Hin as [Hin Hlong]. apply Nat.ltb_lt in Hlong. auto.
    - destruct Hinc as [Hlong Hinc]. split; [|exact Hinc].
      apply filter_In. split; [exact Hin | apply Nat.ltb_lt; exact Hlong]. }
  pose proof (Hwords (L "patent") (spaceless_literal (L "patent") eq_refl)
                     ltac:(discriminate)) as Hpatent.
  pose proof (Hwords (L "legal") (spaceless_literal (L "legal") eq_refl)
                     ltac:(discriminate)) as Hlegal.
  unfold Navigator.heuristicSuggestions.
  destruct (includes (Navigator.join_space keywords) (L "patent")) eqn:Hp;
    [|destruct (includes (Navigator.join_space keywords) (L "legal")) eqn:Hl];
    cbn [orb].
  - split; [intros _ | intros _; eexists; reflexivity].
    destruct (proj1 Hpatent eq_refl) as [w [Hin [Hlong Hinc]]]. eauto.
  - split; [intros _ | intros _; eexists; reflexivity].
    destruct (proj1 Hlegal eq_refl) as [w [Hin [Hlong Hinc]]]. eauto.
  - split.
    + intros [confidence H]. exfalso.
      repeat match type of H with
             | context [if ?b then _ else _] => destruct b
             end; vm_compute in H; discriminate H.
    + intros [w [Hin [Hlong [Hinc | Hinc]]]]; exfalso.
      * assert (false = true) by (apply Hpatent; eauto). discriminate.
      * assert (false = true) by (apply Hlegal; eauto). discriminate.
Qed.

Lemma suggest_patent_bubbles_witness :
  exists confidence,
    Navigator.suggest toLowerCase (VStr (L "my PATENTS so far")) []
    = Return (Navigator.patent_bubbles, confidence).
Proof.
  apply (suggest_patent_bubbles toLowerCase (L "my PATENTS so far") []).
  - discriminate.
  - exists (L "patents"). split; [|split; [|left; reflexivity]].
    + vm_compute. tauto.
    + vm_compute. lia.
Defined.
